(** * dependency_check.py: the version classifier and the requirement parser

    A shallow embedding of [src/dependency_check.py]: [compare_versions],
    the loop of [compare_packages] up to the completed report, and its
    output stage (the choice of the file path and the console table).

    Python [str] values are modelled as [string], that is, as sequences
    of characters with code points below 256; Python lists of strings as
    [list string]; exceptions as the [Raise] case of a result type.  The
    [pip] subprocess is a parameter of the model and [re.search] is
    embedded for the fragment of the pattern language that the program's
    own pattern text uses. *)

From Stdlib Require Import String Ascii List Bool Arith Lia ZArith.
Import ListNotations.
Open Scope string_scope.
Open Scope list_scope.

Set Implicit Arguments.

(** ** Exceptions *)

(** The exceptions that the modelled code raises.  [KeyError k] is the
    failed lookup [sem_version[k]]; [IndexError] is a list index out of
    range; [ReError] is [re.error] for a pattern that does not compile.
    [Unmodelled] is not a Python exception: it marks a pattern that uses
    regular-expression syntax outside the fragment embedded below. *)
Inductive exn : Type :=
| IndexError
| KeyError (k : nat)
| ReError
| Unmodelled.

Inductive result (A : Type) : Type :=
| Ok (a : A)
| Raise (e : exn).

Arguments Ok {A} a.
Arguments Raise {A} e.

Definition rbind {A B : Type} (r : result A) (k : A -> result B) : result B :=
  match r with
  | Ok a => k a
  | Raise e => Raise e
  end.

Notation "x <~ r ;; k" := (rbind r (fun x => k))
  (at level 61, r at next level, right associativity).

(** ** Python string primitives *)

Module Str.

(** [s.startswith(prefix)] *)
Fixpoint startswith (s prefix : string) {struct prefix} : bool :=
  match prefix with
  | EmptyString => true
  | String p prefix' =>
      match s with
      | EmptyString => false
      | String c s' => Ascii.eqb c p && startswith s' prefix'
      end
  end.

(** [sub in s] *)
Fixpoint contains (sub s : string) : bool :=
  startswith s sub ||
  match s with
  | EmptyString => false
  | String _ s' => contains sub s'
  end.

(** [s.split(sep)] for a non-empty [sep], scanning left to right over
    non-overlapping occurrences.  [skip] counts the characters of a
    separator that has just been recognised and are still to be dropped.
    (Python raises ValueError for an empty separator; every call in the
    program passes a non-empty literal.) *)
Fixpoint split_from (sep : string) (skip : nat) (s : string) : list string :=
  match s with
  | EmptyString => [EmptyString]
  | String c rest =>
      match skip with
      | S k => split_from sep k rest
      | O =>
          if startswith s sep
          then EmptyString :: split_from sep (String.length sep - 1) rest
          else match split_from sep 0 rest with
               | field :: fields => String c field :: fields
               | [] => [String c EmptyString]
               end
      end
  end.

Definition split (s sep : string) : list string := split_from sep 0 s.

(** [sep.join(parts)] *)
Fixpoint join (sep : string) (parts : list string) : string :=
  match parts with
  | [] => EmptyString
  | [p] => p
  | p :: ps => p ++ sep ++ join sep ps
  end.

(** [s.replace(old, new)] for a non-empty [old]. *)
Definition replace (s old new : string) : string := join new (split s old).

End Str.

(** ** List indexing *)

(** [l[i]] for a non-negative index. *)
Definition index {A : Type} (l : list A) (i : nat) : result A :=
  match nth_error l i with
  | Some a => Ok a
  | None => Raise IndexError
  end.

(** [l[-1]] *)
Definition index_last {A : Type} (l : list A) : result A :=
  match rev l with
  | a :: _ => Ok a
  | [] => Raise IndexError
  end.

(** [l[i] = v] for a non-negative index. *)
Fixpoint set_index {A : Type} (l : list A) (i : nat) (v : A) : result (list A) :=
  match l, i with
  | [], _ => Raise IndexError
  | _ :: t, O => Ok (v :: t)
  | h :: t, S j => rbind (set_index t j v) (fun t' => Ok (h :: t'))
  end.

(** [enumerate(l, start)] *)
Fixpoint enumerate_from {A : Type} (start : nat) (l : list A) : list (nat * A) :=
  match l with
  | [] => []
  | a :: t => (start, a) :: enumerate_from (S start) t
  end.

Definition enumerate {A : Type} (l : list A) : list (nat * A) := enumerate_from 0 l.

(** [zip(a, b)] *)
Definition zip {A B : Type} (a : list A) (b : list B) : list (A * B) := combine a b.

(** ** compare_versions *)

(** The dictionary [sem_version = {0: 'major', 1: 'minor', 2: 'patch'}]
    and the lookup [sem_version[idx]]. *)
Definition sem_version (idx : nat) : result string :=
  match idx with
  | 0 => Ok "major"
  | 1 => Ok "minor"
  | 2 => Ok "patch"
  | _ => Raise (KeyError idx)
  end.

(** The [for idx, (current, latest) in enumerate(zip(...))] loop with its
    early return, followed by the final [return 'n/a']. *)
Fixpoint compare_loop (items : list (nat * (string * string))) : result string :=
  match items with
  | [] => Ok "n/a"
  | (idx, (current, latest)) :: rest =>
      if negb (String.eqb current latest)
      then sem_version idx
      else compare_loop rest
  end.

Definition compare_versions (current_version latest_version : string) : result string :=
  if String.eqb current_version "n/a" || String.eqb latest_version "n/a"
  then Ok "n/a"
  else if String.eqb current_version latest_version
  then Ok "match"
  else compare_loop
         (enumerate (zip (Str.split current_version ".")
                         (Str.split latest_version "."))).


(** ** The fragment of Python's [re] used by the program

    Patterns are built at run time from the package name, so the pattern
    text is parsed here.  The fragment covers what the program's own
    pattern text contains (literals, [.], [\d], escaped punctuation,
    character sets without ranges or negation, [+] on a single-character
    atom, capturing groups); any other syntax yields [Unmodelled].
    Matching is under [re.IGNORECASE], on characters below 256, where a
    letter matches exactly its two ASCII cases. *)

Module Re.

Inductive atom : Type :=
| Lit (c : ascii)
| AnyChar
| Digit
| CharSet (members : list ascii).

Inductive item : Type :=
| One (a : atom)
| Plus (a : atom)
| Open
| Close.

Definition code (c : ascii) : nat := nat_of_ascii c.

Definition between (lo hi : nat) (c : ascii) : bool :=
  Nat.leb lo (code c) && Nat.leb (code c) hi.

Definition is_upper (c : ascii) : bool := between 65 90 c.
Definition is_lower (c : ascii) : bool := between 97 122 c.
Definition is_digit (c : ascii) : bool := between 48 57 c.
Definition is_ascii (c : ascii) : bool := between 0 127 c.
Definition is_alnum (c : ascii) : bool := is_upper c || is_lower c || is_digit c.

Definition lower (c : ascii) : ascii :=
  if is_upper c then ascii_of_nat (code c + 32) else c.

Definition same_letter (c p : ascii) : bool := Ascii.eqb (lower c) (lower p).

Definition atom_matches (a : atom) (c : ascii) : bool :=
  match a with
  | Lit p => same_letter c p
  | AnyChar => negb (Ascii.eqb c "010")
  | Digit => is_digit c
  | CharSet members => existsb (same_letter c) members
  end.

(** *** Parsing the pattern text *)

Inductive mode : Type :=
| Normal
| Escape
| InSet (members : list ascii)
| InSetEscape (members : list ascii).

(** [+] applies to the item parsed last ([out] is kept in reverse). *)
Definition repeat_last (out : list item) : result (list item) :=
  match out with
  | One a :: out' => Ok (Plus a :: out')
  | [] => Raise ReError
  | Open :: _ => Raise ReError
  | Plus _ :: _ => Raise Unmodelled
  | Close :: _ => Raise Unmodelled
  end.

Definition is_special (c : ascii) : bool :=
  existsb (Ascii.eqb c) (list_ascii_of_string "*?{}|^$").

Fixpoint parse (m : mode) (depth : nat) (out : list item) (s : string)
  : result (list item) :=
  match s with
  | EmptyString =>
      match m with
      | Normal => if Nat.eqb depth 0 then Ok (rev out) else Raise ReError
      | _ => Raise ReError
      end
  | String c s' =>
      if negb (is_ascii c) then Raise Unmodelled else
      match m with
      | Normal =>
          if Ascii.eqb c "\" then parse Escape depth out s'
          else if Ascii.eqb c "[" then parse (InSet []) depth out s'
          else if Ascii.eqb c "(" then parse Normal (S depth) (Open :: out) s'
          else if Ascii.eqb c ")" then
            match depth with
            | O => Raise ReError
            | S d => parse Normal d (Close :: out) s'
            end
          else if Ascii.eqb c "." then parse Normal depth (One AnyChar :: out) s'
          else if Ascii.eqb c "+" then
            rbind (repeat_last out) (fun out' => parse Normal depth out' s')
          else if is_special c then Raise Unmodelled
          else parse Normal depth (One (Lit c) :: out) s'
      | Escape =>
          if Ascii.eqb c "d" then parse Normal depth (One Digit :: out) s'
          else if is_alnum c then Raise Unmodelled
          else parse Normal depth (One (Lit c) :: out) s'
      | InSet members =>
          if Ascii.eqb c "]" then
            match members with
            | [] => Raise Unmodelled
            | _ => parse Normal depth (One (CharSet members) :: out) s'
            end
          else if Ascii.eqb c "\" then parse (InSetEscape members) depth out s'
          else if Ascii.eqb c "^" || Ascii.eqb c "-" || Ascii.eqb c "["
          then Raise Unmodelled
          else parse (InSet (members ++ [c])) depth out s'
      | InSetEscape members =>
          if is_alnum c then Raise Unmodelled
          else parse (InSet (members ++ [c])) depth out s'
      end
  end.

(** [re.compile(pattern, re.IGNORECASE)] *)
Definition compile (pattern : string) : result (list item) :=
  parse Normal 0 [] pattern.

(** *** Matching *)

(** What group 1 holds while a match is attempted. *)
Inductive capture : Type :=
| NotYet
| Inside (depth : nat) (text : string)
| Closed (text : string).

Definition record (c : ascii) (cap : capture) : capture :=
  match cap with
  | Inside d text => Inside d (text ++ String c EmptyString)
  | _ => cap
  end.

Definition open_group (cap : capture) : capture :=
  match cap with
  | NotYet => Inside 0 EmptyString
  | Inside d text => Inside (S d) text
  | Closed text => Closed text
  end.

Definition close_group (cap : capture) : capture :=
  match cap with
  | Inside O text => Closed text
  | Inside (S d) text => Inside d text
  | _ => cap
  end.

(** The tail of a greedy [a+]: as many further [a] as possible, then the
    rest of the pattern [k]; one repetition is given back at a time when
    the rest fails. *)
Fixpoint more (k : capture -> string -> option capture) (a : atom)
         (cap : capture) (s : string) : option capture :=
  match s with
  | String c s' =>
      if atom_matches a c then
        match more k a (record c cap) s' with
        | Some r => Some r
        | None => k cap s
        end
      else k cap s
  | EmptyString => k cap s
  end.

(** Backtracking match of the items at the start of [s]. *)
Fixpoint match_here (p : list item) (cap : capture) (s : string) {struct p}
  : option capture :=
  match p with
  | [] => Some cap
  | One a :: p' =>
      match s with
      | String c s' =>
          if atom_matches a c then match_here p' (record c cap) s' else None
      | EmptyString => None
      end
  | Open :: p' => match_here p' (open_group cap) s
  | Close :: p' => match_here p' (close_group cap) s
  | Plus a :: p' =>
      match s with
      | String c s' =>
          if atom_matches a c then more (match_here p') a (record c cap) s'
          else None
      | EmptyString => None
      end
  end.

(** The leftmost match: start positions are tried from left to right. *)
Fixpoint scan (p : list item) (s : string) : option capture :=
  match match_here p NotYet s with
  | Some r => Some r
  | None =>
      match s with
      | EmptyString => None
      | String _ s' => scan p s'
      end
  end.

(** [re.search(pattern, s, re.IGNORECASE)]: [None] or a match object,
    represented by what it captured. *)
Definition search (pattern s : string) : result (option capture) :=
  rbind (compile pattern) (fun p => Ok (scan p s)).

(** [m[1]] *)
Definition group1 (m : capture) : result string :=
  match m with
  | Closed text => Ok text
  | Inside _ text => Ok text   (* not reached: compiled patterns are balanced *)
  | NotYet => Raise IndexError
  end.

End Re.


(** ** compare_packages *)

(** The program asks the package index for the latest version by running
    [pip install --dry-run ...] in a subprocess.  The subprocess is the
    outside world: it is a parameter of the model, threaded through the
    loop as explicit state.  [pip_dry_run name w] gives the new world and
    the pair [(dry_install.returncode, str(dry_install.stdout))]; the
    call itself is taken to return ([subprocess.run] finds [pip]).  The
    progress bar and the printed line count are left out. *)

Section ComparePackages.

Variable World : Type.
Variable pip_dry_run : string -> World -> World * (Z * string).

Definition M (A : Type) : Type := World -> World * result A.

Definition ret {A : Type} (a : A) : M A := fun w => (w, Ok a).

Definition bind {A B : Type} (m : M A) (k : A -> M B) : M B :=
  fun w =>
    match m w with
    | (w', Ok a) => k a w'
    | (w', Raise e) => (w', Raise e)
    end.

Definition lift {A : Type} (r : result A) : M A := fun w => (w, r).

Notation "x <- m ;; k" := (bind m (fun x => k))
  (at level 61, m at next level, right associativity).
(** The header row the report starts with. *)
Definition header : list string := ["package"; "version"; "latest"; "compare"].

(** Lines 80-81: the pattern text built from the package name. *)
Definition make_version_pattern (name : string) : string :=
  let package_string := Str.replace name "-" "[\-_]" in
  (package_string ++ "\-(\d+\.\d+\.\d+)")%string.

(** Lines 75-88 of the loop body: the split of the line and the rewrite of
    [package_info[1]] for file and http references.  The result is
    [package_info] together with [version_pattern]. *)
Definition parse_package (package : string) : result (list string * string) :=
  let package_info :=
    if Str.contains "==" package
    then Str.split package "=="
    else Str.split package " @ " in
  name <~ index package_info 0 ;;
  let version_pattern := make_version_pattern name in
  reference <~ index package_info 1 ;;
  if Str.startswith reference "file" || Str.startswith reference "http"
  then
    file_version <~ Re.search version_pattern reference ;;
    match file_version with
    | Some m =>
        version <~ Re.group1 m ;;
        package_info' <~ set_index package_info 1 version ;;
        Ok (package_info', version_pattern)
    | None =>
        segment <~ index_last (Str.split reference "/") ;;
        package_info' <~ set_index package_info 1 segment ;;
        Ok (package_info', version_pattern)
    end
  else Ok (package_info, version_pattern).

(** Lines 90-103: the dry run and the scrape of its output. *)
Definition latest_version (name version_pattern : string) : M string :=
  fun w =>
    let '(w', (returncode, stdout)) := pip_dry_run name w in
    if Z.eqb returncode 0
    then
      (w', version_search <~ Re.search version_pattern stdout ;;
           match version_search with
           | Some m => Re.group1 m
           | None => Ok "n/a"
           end)
    else (w', Ok "n/a").

(** One iteration of the loop: the row appended to [version_compare]. *)
Definition process_package (package : string) : M (list string) :=
  parsed <- lift (parse_package package) ;;
  let '(package_info, version_pattern) := parsed in
  name <- lift (index package_info 0) ;;
  version <- latest_version name version_pattern ;;
  declared <- lift (index package_info 1) ;;
  comparison <- lift (compare_versions declared version) ;;
  ret (package_info ++ [version; comparison]).

(** The loop over the manifest lines, appending to [version_compare]. *)
Fixpoint compare_rows (packages : list string) (version_compare : list (list string))
  : M (list (list string)) :=
  match packages with
  | [] => ret version_compare
  | package :: rest =>
      row <- process_package package ;;
      compare_rows rest (version_compare ++ [row])
  end.

(** [compare_packages] up to the point where the report is complete;
    [packages] is the manifest already read and split into lines.  Writing
    the report (CSV or console table) is outside the model. *)
Definition compare_packages (packages : list string) : M (list (list string)) :=
  compare_rows packages [header].

End ComparePackages.

(** The rows of a completed pass, line by line: [rows_of pip w packages
    rows w'] holds when processing the lines in order from world [w]
    yields exactly [rows], one per line, and ends in world [w']. *)
Inductive rows_of (World : Type) (pip : string -> World -> World * (Z * string))
  : World -> list string -> list (list string) -> World -> Prop :=
| rows_nil (w : World) : rows_of pip w [] [] w
| rows_cons (w w1 w2 : World) (package : string) (rest : list string)
            (row : list string) (rows : list (list string)) :
    process_package pip package w = (w1, Ok row) ->
    rows_of pip w1 rest rows w2 ->
    rows_of pip w (package :: rest) (row :: rows) w2.

(** The text after the last occurrence of the character [c] in [s], or
    all of [s] when [c] does not occur. *)
Fixpoint after_last (c : ascii) (s : string) : string :=
  match s with
  | EmptyString => EmptyString
  | String x s' =>
      if Str.contains (String c EmptyString) s' then after_last c s'
      else if Ascii.eqb x c then s'
      else s
  end.

(** ** What the version pattern denotes

    The definitions below describe matching declaratively; they are used
    to state what [re.search] with the program's pattern finds. *)

Module Pattern.
Import Re.

(** A match of the items at the start of a string: [run p cap s cap' rest]
    holds when [p] matches a prefix of [s], leaving [rest], and takes the
    capture from [cap] to [cap']. *)
Inductive run : list item -> capture -> string -> capture -> string -> Prop :=
| run_nil (cap : capture) (s : string) : run [] cap s cap s
| run_one (a : atom) (p : list item) (c : ascii) (s : string)
          (cap cap' : capture) (rest : string) :
    atom_matches a c = true ->
    run p (record c cap) s cap' rest ->
    run (One a :: p) cap (String c s) cap' rest
| run_open (p : list item) (s : string) (cap cap' : capture) (rest : string) :
    run p (open_group cap) s cap' rest ->
    run (Open :: p) cap s cap' rest
| run_close (p : list item) (s : string) (cap cap' : capture) (rest : string) :
    run p (close_group cap) s cap' rest ->
    run (Close :: p) cap s cap' rest
| run_plus_last (a : atom) (p : list item) (c : ascii) (s : string)
                (cap cap' : capture) (rest : string) :
    atom_matches a c = true ->
    run p (record c cap) s cap' rest ->
    run (Plus a :: p) cap (String c s) cap' rest
| run_plus_more (a : atom) (p : list item) (c : ascii) (s : string)
                (cap cap' : capture) (rest : string) :
    atom_matches a c = true ->
    run (Plus a :: p) (record c cap) s cap' rest ->
    run (Plus a :: p) cap (String c s) cap' rest.

(** Characters of a package name that the pattern text takes literally,
    together with ['-'] (rewritten to a set) and ['.']. *)
Definition name_char_ok (c : ascii) : bool :=
  is_ascii c &&
  negb (existsb (Ascii.eqb c) (list_ascii_of_string "\[()+*?{}|^$")).

Fixpoint name_ok (name : string) : bool :=
  match name with
  | EmptyString => true
  | String c name' => name_char_ok c && name_ok name'
  end.

(** What one character of the name stands for in the pattern. *)
Definition name_atom (c : ascii) : atom :=
  if Ascii.eqb c "-" then CharSet ["-"; "_"]%char
  else if Ascii.eqb c "." then AnyChar
  else Lit c.

Fixpoint name_items (name : string) : list item :=
  match name with
  | EmptyString => []
  | String c name' => One (name_atom c) :: name_items name'
  end.

(** The items of [\-(\d+\.\d+\.\d+)]. *)
Definition version_items : list item :=
  [One (Lit "-"); Open; Plus Digit; One (Lit "."); Plus Digit;
   One (Lit "."); Plus Digit; Close].

(** [t] is the name up to letter case, a ['-'] of the name standing for
    ['-'] or ['_'] and a ['.'] for any character but a newline. *)
Fixpoint name_matches (name t : string) : bool :=
  match name, t with
  | EmptyString, EmptyString => true
  | String c name', String d t' =>
      atom_matches (name_atom c) d && name_matches name' t'
  | _, _ => false
  end.

Fixpoint all_digits (s : string) : bool :=
  match s with
  | EmptyString => true
  | String c s' => is_digit c && all_digits s'
  end.

(** A non-empty run of decimal digits. *)
Definition is_number (s : string) : bool :=
  match s with
  | EmptyString => false
  | _ => all_digits s
  end.

(** [<major>.<minor>.<patch>] *)
Definition is_version (v : string) : Prop :=
  exists major minor patch,
    v = (major ++ "." ++ minor ++ "." ++ patch)%string /\
    is_number major = true /\ is_number minor = true /\ is_number patch = true.

(** The text [reference] holds the name, a hyphen and the version [v]. *)
Definition found (name reference v : string) : Prop :=
  exists pre t post,
    reference = (pre ++ t ++ "-" ++ v ++ post)%string /\
    name_matches name t = true /\
    is_version v.

End Pattern.

(** A package index that is out of reach: every dry run fails. *)
Definition pip_offline (name : string) (w : unit) : unit * (Z * string) :=
  (w, (1%Z, EmptyString)).

(** A package index that knows [alpha 1.0.0] and [beta 3.0.0]; the world
    counts the queries made. *)
Definition pip_mock (name : string) (w : nat) : nat * (Z * string) :=
  if String.eqb name "alpha"
  then (S w, (0%Z, "b'Would install alpha-1.0.0\n'"))
  else if String.eqb name "beta"
  then (S w, (0%Z, "b'Would install beta-3.0.0\n'"))
  else (S w, (1%Z, "b''")).

(** ** The output stage of compare_packages (lines 107-123)

    Where the report goes, and the console table.  The file system is a
    parameter ([os.path.isdir]); writing the CSV file is the work of the
    [csv] library and is not modelled. *)

Module Output.

(** [s.endswith(suffix)]: some tail of [s] is [suffix]. *)
Fixpoint endswith (s suffix : string) : bool :=
  String.eqb s suffix ||
  match s with
  | EmptyString => false
  | String _ s' => endswith s' suffix
  end.

Inductive destination : Type :=
| Console
| CsvFile (path : string).

(** Lines 107-112 and 116: [output_file] is [None] when [main] was called
    without [-o]; [None] and [''] are false, and the table is printed. *)
Definition output_destination (isdir : string -> bool)
           (output_file : option string) : destination :=
  match output_file with
  | None => Console
  | Some EmptyString => Console
  | Some path =>
      if isdir path then CsvFile (path ++ "/version_check.csv")
      else if negb (endswith path ".csv") then CsvFile (path ++ ".csv")
      else CsvFile path
  end.

(** [zip( *rows )]: the columns, as many as the shortest row has fields. *)
Fixpoint zip_star {A : Type} (rows : list (list A)) : list (list A) :=
  match rows with
  | [] => []
  | row :: rest =>
      match rest with
      | [] => map (fun value => [value]) row
      | _ :: _ =>
          map (fun p => fst p :: snd p) (combine row (zip_star rest))
      end
  end.

(** [max(...)] of a sequence of numbers; [None] stands for the ValueError
    that [max] raises on an empty sequence. *)
Definition py_max (values : list nat) : option nat :=
  match values with
  | [] => None
  | v :: vs => Some (fold_left Nat.max vs v)
  end.

(** [[f(x) for x in xs]] where [f] may raise. *)
Fixpoint traverse {A B : Type} (f : A -> option B) (xs : list A) : option (list B) :=
  match xs with
  | [] => Some []
  | x :: xs' =>
      match f x with
      | None => None
      | Some y =>
          match traverse f xs' with
          | None => None
          | Some ys => Some (y :: ys)
          end
      end
  end.

(** Lines 117-118: the width of each column. *)
Definition column_widths (version_compare : list (list string)) : option (list nat) :=
  traverse (fun column => py_max (map String.length column))
           (zip_star version_compare).

Fixpoint spaces (n : nat) : string :=
  match n with
  | O => EmptyString
  | S n' => String " " (spaces n')
  end.

(** [f"{value:<{width}}"]: left-justified in a field of at least [width]
    characters, filled with spaces. *)
Definition ljust (value : string) (width : nat) : string :=
  (value ++ spaces (width - String.length value))%string.

(** Lines 120-121: one line of the table. *)
Definition render_row (column_widths : list nat) (row : list string) : string :=
  Str.join "  " (map (fun p => ljust (fst p) (snd p)) (combine row column_widths)).

Definition newline : string := String "010" EmptyString.

(** Lines 117-122: [compare_string]. *)
Definition compare_string (version_compare : list (list string)) : option string :=
  match column_widths version_compare with
  | None => None
  | Some widths =>
      Some (Str.join newline (map (render_row widths) version_compare))
  end.

(** The length every line of a table with these column widths has: the
    widths and a two-space gap between neighbours. *)
Definition line_length (widths : list nat) : nat :=
  list_sum widths + 2 * (length widths - 1).

End Output.

(** A line that parses into a name without regular-expression operators
    (together with at least one more field). *)
Definition well_formed_line (package : string) : Prop :=
  exists name declared more,
    parse_package package
    = Ok (name :: declared :: more, make_version_pattern name) /\
    Pattern.name_ok name = true.


(** * Properties of the version classifier *)

Section CompareLoop.

Lemma compare_loop_swap (la lb : list string) :
  forall n,
    compare_loop (enumerate_from n (zip la lb)) =
    compare_loop (enumerate_from n (zip lb la)).
Proof.
  revert lb.
  induction la as [|x la IH]; intros [|y lb] n; simpl; try reflexivity.
  rewrite (String.eqb_sym y x).
  destruct (String.eqb x y); simpl; [apply IH | reflexivity].
Qed.

(** The loop returns at the first index where the zipped components
    differ, with the dictionary lookup at that index. *)
Lemma compare_loop_first_diff (la lb : list string) :
  forall n i x y,
    nth_error la i = Some x ->
    nth_error lb i = Some y ->
    x <> y ->
    (forall j, j < i -> nth_error la j = nth_error lb j) ->
    compare_loop (enumerate_from n (zip la lb)) = sem_version (n + i).
Proof.
  revert lb.
  induction la as [|a la IH]; intros lb n i x y Ha Hb Hxy Hpre.
  - destruct i; discriminate.
  - destruct lb as [|b lb]; [destruct i; discriminate|].
    destruct i as [|i]; simpl in *.
    + injection Ha as ->. injection Hb as ->.
      apply String.eqb_neq in Hxy. rewrite Hxy. simpl.
      now rewrite Nat.add_0_r.
    + assert (Hab : a = b).
      { specialize (Hpre 0 (Nat.lt_0_succ _)). simpl in Hpre. congruence. }
      subst b. rewrite String.eqb_refl. simpl.
      rewrite (IH lb (S n) i x y Ha Hb Hxy).
      * f_equal. lia.
      * intros j Hj. apply (Hpre (S j)). lia.
Qed.

(** When the zipped components agree throughout, the loop falls through. *)
Lemma compare_loop_agree (la lb : list string) :
  forall n,
    (forall j, j < Nat.min (length la) (length lb) ->
               nth_error la j = nth_error lb j) ->
    compare_loop (enumerate_from n (zip la lb)) = Ok "n/a".
Proof.
  revert lb.
  induction la as [|a la IH]; intros [|b lb] n Hagree; simpl; try reflexivity.
  assert (Hab : a = b).
  { specialize (Hagree 0). simpl in Hagree.
    assert (Some a = Some b) by (apply Hagree; lia). congruence. }
  subst b. rewrite String.eqb_refl. simpl.
  apply IH. intros j Hj. apply (Hagree (S j)). simpl. lia.
Qed.

End CompareLoop.

Lemma compare_versions_unfold (a b : string) :
  a <> "n/a" -> b <> "n/a" -> a <> b ->
  compare_versions a b =
  compare_loop (enumerate (zip (Str.split a ".") (Str.split b "."))).
Proof.
  intros Ha Hb Hab. unfold compare_versions.
  apply String.eqb_neq in Ha, Hb, Hab.
  now rewrite Ha, Hb, Hab.
Qed.

(** The classifier in terms of the first differing component. *)
Lemma compare_versions_first_diff (a b : string) (i : nat) (x y : string) :
  a <> "n/a" -> b <> "n/a" -> a <> b ->
  nth_error (Str.split a ".") i = Some x ->
  nth_error (Str.split b ".") i = Some y ->
  x <> y ->
  (forall j, j < i ->
             nth_error (Str.split a ".") j = nth_error (Str.split b ".") j) ->
  compare_versions a b = sem_version i.
Proof.
  intros Ha Hb Hab Hx Hy Hxy Hpre.
  rewrite compare_versions_unfold by assumption.
  unfold enumerate.
  now rewrite (compare_loop_first_diff _ _ 0 Hx Hy Hxy Hpre).
Qed.

(** C1: the classifier is not total on strings with four or more
    components: when the first difference is at index 3 the dictionary
    lookup [sem_version[3]] raises KeyError. *)
Theorem compare_versions_four_components_raises :
  compare_versions "1.2.3.4" "1.2.3.5" = Raise (KeyError 3).
Proof. reflexivity. Qed.

(** X2: whenever the first difference is at index 3 or later, the
    classifier raises KeyError with that index. *)
Lemma compare_versions_key_error (a b : string) (i : nat) (x y : string) :
  a <> "n/a" -> b <> "n/a" ->
  nth_error (Str.split a ".") i = Some x ->
  nth_error (Str.split b ".") i = Some y ->
  x <> y ->
  (forall j, j < i ->
             nth_error (Str.split a ".") j = nth_error (Str.split b ".") j) ->
  3 <= i ->
  compare_versions a b = Raise (KeyError i).
Proof.
  intros Ha Hb Hx Hy Hxy Hpre Hi.
  assert (Hab : a <> b) by (intros ->; congruence).
  rewrite (compare_versions_first_diff Ha Hb Hab Hx Hy Hxy Hpre).
  do 3 (destruct i as [|i]; [lia|]). reflexivity.
Qed.

(** Every outcome of the classifier is one of the five values or a
    KeyError with an index of at least 3. *)
Lemma compare_loop_outcomes (items : list (nat * (string * string))) :
  (exists v, compare_loop items = Ok v /\
             In v ["match"; "major"; "minor"; "patch"; "n/a"]) \/
  (exists k, compare_loop items = Raise (KeyError k) /\ 3 <= k).
Proof.
  induction items as [|[idx [c l]] rest IH]; simpl.
  - left. exists "n/a". simpl. tauto.
  - destruct (negb (String.eqb c l)); [|exact IH].
    destruct idx as [|[|[|k]]]; simpl.
    + left. exists "major". simpl. tauto.
    + left. exists "minor". simpl. tauto.
    + left. exists "patch". simpl. tauto.
    + right. exists (S (S (S k))). split; [reflexivity | lia].
Qed.

Lemma compare_versions_outcomes (a b : string) :
  (exists v, compare_versions a b = Ok v /\
             In v ["match"; "major"; "minor"; "patch"; "n/a"]) \/
  (exists k, compare_versions a b = Raise (KeyError k) /\ 3 <= k).
Proof.
  unfold compare_versions.
  destruct (String.eqb a "n/a" || String.eqb b "n/a").
  - left. exists "n/a". simpl. tauto.
  - destruct (String.eqb a b).
    + left. exists "match". simpl. tauto.
    + apply compare_loop_outcomes.
Qed.

(** C3: for unequal strings, neither of them 'n/a', the first index at
    which the dot-separated components differ decides the result: major
    for index 0, minor for index 1, patch for index 2. *)
Theorem compare_versions_first_difference (a b : string) (i : nat) (x y : string) :
  a <> "n/a" -> b <> "n/a" -> a <> b ->
  nth_error (Str.split a ".") i = Some x ->
  nth_error (Str.split b ".") i = Some y ->
  x <> y ->
  (forall j, j < i ->
             nth_error (Str.split a ".") j = nth_error (Str.split b ".") j) ->
  (i = 0 -> compare_versions a b = Ok "major") /\
  (i = 1 -> compare_versions a b = Ok "minor") /\
  (i = 2 -> compare_versions a b = Ok "patch").
Proof.
  intros Ha Hb Hab Hx Hy Hxy Hpre.
  rewrite (compare_versions_first_diff Ha Hb Hab Hx Hy Hxy Hpre).
  repeat split; intros ->; reflexivity.
Qed.

(** The three examples of the specification, as instances. *)
Lemma compare_versions_first_difference_witness :
  compare_versions "1.0.0" "2.0.0" = Ok "major" /\
  compare_versions "1.2.0" "1.3.0" = Ok "minor" /\
  compare_versions "1.2.3" "1.2.4" = Ok "patch".
Proof.
  split; [|split].
  - refine (proj1 (@compare_versions_first_difference
                     "1.0.0" "2.0.0" 0 "1" "2" _ _ _ _ _ _ _) eq_refl);
      try discriminate; try reflexivity.
    intros j Hj. lia.
  - refine (proj1 (proj2 (@compare_versions_first_difference
                            "1.2.0" "1.3.0" 1 "2" "3" _ _ _ _ _ _ _)) eq_refl);
      try discriminate; try reflexivity.
    intros j Hj. assert (j = 0) as -> by lia. reflexivity.
  - refine (proj2 (proj2 (@compare_versions_first_difference
                            "1.2.3" "1.2.4" 2 "3" "4" _ _ _ _ _ _ _)) eq_refl);
      try discriminate; try reflexivity.
    intros j Hj. destruct j as [|[|j]]; [reflexivity | reflexivity | lia].
Defined.

(** C6: for unequal strings, neither of them 'n/a', whose components
    agree at every index below the length of the shorter one while one has
    strictly fewer components than the other, the result is 'n/a'. *)
Theorem compare_versions_shorter_prefix (a b : string) :
  a <> "n/a" -> b <> "n/a" -> a <> b ->
  (forall j, j < Nat.min (length (Str.split a ".")) (length (Str.split b ".")) ->
             nth_error (Str.split a ".") j = nth_error (Str.split b ".") j) ->
  length (Str.split a ".") <> length (Str.split b ".") ->
  compare_versions a b = Ok "n/a".
Proof.
  intros Ha Hb Hab Hagree _.
  rewrite compare_versions_unfold by assumption.
  now apply compare_loop_agree.
Qed.

(** The documented edge case: '1.2' against '1.2.0'. *)
Lemma compare_versions_shorter_prefix_witness :
  compare_versions "1.2" "1.2.0" = Ok "n/a".
Proof.
  refine (@compare_versions_shorter_prefix "1.2" "1.2.0" _ _ _ _ _);
    try discriminate.
  intros j Hj. simpl in Hj.
  destruct j as [|[|j]]; [reflexivity | reflexivity | lia].
Defined.

(** C7: when at least one argument is the sentinel 'n/a' the result is
    'n/a', whatever the other argument is and in either position. *)
Theorem compare_versions_sentinel (a b : string) :
  a = "n/a" \/ b = "n/a" -> compare_versions a b = Ok "n/a".
Proof.
  intros H. unfold compare_versions.
  destruct H as [-> | ->].
  - reflexivity.
  - change (String.eqb "n/a" "n/a") with true.
    now rewrite orb_true_r.
Qed.

Lemma compare_versions_sentinel_witness :
  compare_versions "n/a" "1.0.0" = Ok "n/a" /\
  compare_versions "1.0.0" "n/a" = Ok "n/a".
Proof.
  split.
  - apply (@compare_versions_sentinel "n/a" "1.0.0"). left. reflexivity.
  - apply (@compare_versions_sentinel "1.0.0" "n/a"). right. reflexivity.
Defined.

(** C8: a string other than 'n/a' compared with itself gives 'match'. *)
Theorem compare_versions_reflexive (v : string) :
  v <> "n/a" -> compare_versions v v = Ok "match".
Proof.
  intros Hv. unfold compare_versions.
  apply String.eqb_neq in Hv. rewrite Hv. simpl.
  now rewrite String.eqb_refl.
Qed.

Lemma compare_versions_reflexive_witness :
  compare_versions "1.2.3" "1.2.3" = Ok "match".
Proof.
  apply (@compare_versions_reflexive "1.2.3"). discriminate.
Defined.

(** C10: the classifier is symmetric in its two arguments, the raised
    KeyError included. *)
Theorem compare_versions_symmetric (a b : string) :
  compare_versions a b = compare_versions b a.
Proof.
  unfold compare_versions.
  rewrite (orb_comm (String.eqb a "n/a")), (String.eqb_sym b a).
  destruct (String.eqb b "n/a" || String.eqb a "n/a"); [reflexivity|].
  destruct (String.eqb a b); [reflexivity|].
  apply compare_loop_swap.
Qed.

(** * Facts about the string primitives *)

Module StrFacts.
Import Str.

Lemma append_assoc (a b c : string) :
  ((a ++ b) ++ c)%string = (a ++ (b ++ c))%string.
Proof. induction a as [|x a IH]; simpl; [reflexivity | now rewrite IH]. Qed.

Lemma append_length (a b : string) :
  String.length (a ++ b) = String.length a + String.length b.
Proof. induction a as [|x a IH]; simpl; [reflexivity | now rewrite IH]. Qed.

Lemma startswith_append (p s : string) : startswith (p ++ s) p = true.
Proof.
  induction p as [|x p IH]; simpl; [reflexivity|].
  now rewrite Ascii.eqb_refl, IH.
Qed.

(** A prefix test that succeeds on [x ++ y] already succeeds on [x] when
    the prefix is no longer than [x]. *)
Lemma startswith_shorten (p : string) :
  forall x y,
    startswith (x ++ y) p = true ->
    String.length p <= String.length x ->
    startswith x p = true.
Proof.
  induction p as [|c p IH]; intros x y H Hlen; [reflexivity|].
  destruct x as [|d x]; simpl in *; [lia|].
  apply andb_true_iff in H. destruct H as [Hc Hp].
  rewrite Hc. simpl. apply (IH x y Hp). lia.
Qed.

Lemma contains_here (sub s : string) :
  startswith s sub = true -> contains sub s = true.
Proof. intros H. destruct s; simpl; now rewrite H. Qed.

Lemma contains_append (sep a b : string) :
  contains sep (a ++ sep ++ b) = true.
Proof.
  induction a as [|x a IH]; simpl.
  - apply contains_here, startswith_append.
  - rewrite IH. apply orb_true_r.
Qed.

Lemma split_from_nonempty (sep : string) (s : string) :
  forall k, split_from sep k s <> [].
Proof.
  induction s as [|x s IH]; intros k; simpl; [discriminate|].
  destruct k; [|apply IH].
  destruct (startswith (String x s) sep); [discriminate|].
  destruct (split_from sep 0 s); discriminate.
Qed.

Lemma split_from_skip (sep p s : string) :
  split_from sep (String.length p) (p ++ s) = split_from sep 0 s.
Proof. induction p as [|x p IH]; simpl; [reflexivity | exact IH]. Qed.

(** Without an occurrence of the separator there is a single field. *)
Lemma split_absent (sep s : string) :
  contains sep s = false -> split s sep = [s].
Proof.
  unfold split. induction s as [|x s IH]; intros H; [reflexivity|].
  cbn [contains] in H. apply orb_false_elim in H. destruct H as [H1 H2].
  cbn [split_from]. rewrite H1, (IH H2). reflexivity.
Qed.

(** With an occurrence there are at least two fields. *)
Lemma split_present (c : ascii) (sep' s : string) :
  contains (String c sep') s = true ->
  exists f g fs, split s (String c sep') = f :: g :: fs.
Proof.
  unfold split. induction s as [|x s IH]; intros H.
  - discriminate.
  - cbn [contains] in H. cbn [split_from].
    destruct (startswith (String x s) (String c sep')) eqn:E.
    + destruct (split_from (String c sep')
                  (String.length (String c sep') - 1) s) as [|g fs] eqn:F.
      * now apply split_from_nonempty in F.
      * now exists EmptyString, g, fs.
    + simpl in H. destruct (IH H) as (f & g & fs & ->).
      now exists (String x f), g, fs.
Qed.

(** A separator at the very start gives an empty first field. *)
Lemma split_at_sep (c : ascii) (sep' b : string) :
  split (String c sep' ++ b) (String c sep') =
  EmptyString :: split b (String c sep').
Proof.
  unfold split.
  change (String c sep' ++ b)%string with (String c (sep' ++ b)).
  cbn [split_from].
  change (String c (sep' ++ b)) with (String c sep' ++ b)%string.
  rewrite startswith_append.
  cbn [String.length]. rewrite Nat.sub_succ, Nat.sub_0_r.
  now rewrite split_from_skip.
Qed.

(** The first field ends at the first occurrence of the separator: no
    occurrence may start inside [a], not even one that runs into the
    separator that follows. *)
Lemma split_first (sep_init : string) (sep_last : ascii) (a b : string) :
  let sep := (sep_init ++ String sep_last EmptyString)%string in
  contains sep (a ++ sep_init) = false ->
  split (a ++ sep ++ b) sep = a :: split b sep.
Proof.
  intros sep.
  assert (Hsep : exists c sep', sep = String c sep').
  { subst sep. destruct sep_init as [|c i]; simpl; eauto. }
  destruct Hsep as (c & sep' & Hsep).
  induction a as [|x a IH]; intros H.
  - simpl. rewrite Hsep. apply split_at_sep.
  - cbn [contains append] in H. apply orb_false_elim in H.
    destruct H as [H1 H2].
    unfold split in *. cbn [append split_from].
    assert (E : startswith (String x (a ++ sep ++ b)) sep = false).
    { destruct (startswith (String x (a ++ sep ++ b)) sep) eqn:E;
        [|reflexivity].
      rewrite <- H1. symmetry.
      apply (@startswith_shorten sep (String x (a ++ sep_init))
                                 (String sep_last b)).
      - subst sep. simpl. rewrite !append_assoc. simpl.
        rewrite !append_assoc in E. exact E.
      - subst sep. simpl. rewrite !append_length. simpl. lia. }
    rewrite E, (IH H2). reflexivity.
Qed.

Lemma index_last_cons {A : Type} (a : A) (l : list A) :
  l <> [] -> index_last (a :: l) = index_last l.
Proof.
  intros Hl. unfold index_last. simpl.
  destruct (rev l) as [|b t] eqn:E.
  - apply (f_equal (@rev A)) in E. rewrite rev_involutive in E. now subst.
  - reflexivity.
Qed.

(** [s.split(c)[-1]] is the text after the last [c]. *)
Lemma split_last_segment (c : ascii) (s : string) :
  index_last (split s (String c EmptyString)) = Ok (after_last c s).
Proof.
  induction s as [|x s IH]; [reflexivity|].
  unfold split in *. cbn [split_from after_last startswith String.length].
  rewrite andb_true_r.
  destruct (contains (String c EmptyString) s) eqn:Hc.
  - destruct (split_present _ _ _ Hc) as (f & g & fs & E).
    unfold split in E. rewrite E in *.
    destruct (Ascii.eqb x c); simpl Nat.sub.
    + rewrite E. rewrite index_last_cons by discriminate. exact IH.
    + rewrite index_last_cons by discriminate.
      rewrite index_last_cons in IH by discriminate. exact IH.
  - pose proof (split_absent _ _ Hc) as E. unfold split in E.
    destruct (Ascii.eqb x c); simpl Nat.sub; rewrite E; reflexivity.
Qed.

End StrFacts.

(** * The version pattern *)

Module PatternFacts.
Import Re Pattern.

(** [replace] of the single character ['-'], one character at a time. *)
Lemma replace_hyphen_cons (c : ascii) (s new : string) :
  Str.replace (String c s) "-" new
  = ((if Ascii.eqb c "-" then new else String c EmptyString)
       ++ Str.replace s "-" new)%string.
Proof.
  unfold Str.replace, Str.split.
  cbn [Str.split_from Str.startswith String.length Nat.sub].
  rewrite andb_true_r.
  destruct (Str.split_from "-" 0 s) as [|f fs] eqn:E.
  - now apply StrFacts.split_from_nonempty in E.
  - destruct (Ascii.eqb c "-"); [reflexivity|].
    destruct fs; reflexivity.
Qed.

(** A character of the name other than ['-'] is parsed into its atom. *)
Lemma parse_name_char (c : ascii) :
  name_char_ok c = true ->
  Ascii.eqb c "-" = false ->
  forall depth out s,
    parse Normal depth out (String c s)
    = parse Normal depth (One (name_atom c) :: out) s.
Proof.
  destruct c as [[] [] [] [] [] [] [] []]; intros Hok Hne depth out s;
    try discriminate Hok; try discriminate Hne; reflexivity.
Qed.

(** The text built from the name is parsed into the items of the name. *)
Lemma parse_name (name : string) :
  name_ok name = true ->
  forall out rest,
    parse Normal 0 out (Str.replace name "-" "[\-_]" ++ rest)
    = parse Normal 0 (rev (name_items name) ++ out) rest.
Proof.
  induction name as [|c name IH]; intros Hok out rest.
  - reflexivity.
  - cbn [name_ok] in Hok. apply andb_true_iff in Hok. destruct Hok as [Hc Hok].
    rewrite replace_hyphen_cons, StrFacts.append_assoc.
    cbn [name_items rev]. rewrite <- app_assoc. cbn [app].
    destruct (Ascii.eqb c "-") eqn:E.
    + apply Ascii.eqb_eq in E. subst c.
      change (parse Normal 0 out
                ("[\-_]" ++ Str.replace name "-" "[\-_]" ++ rest))
        with (parse Normal 0 (One (name_atom "-") :: out)
                (Str.replace name "-" "[\-_]" ++ rest)).
      apply (IH Hok).
    + cbn [append]. rewrite (parse_name_char c Hc E). apply (IH Hok).
Qed.

Lemma parse_version_suffix (out : list item) :
  parse Normal 0 out "\-(\d+\.\d+\.\d+)" = Ok (rev out ++ version_items).
Proof.
  cbn. repeat rewrite <- app_assoc. reflexivity.
Qed.

(** The pattern of a name compiles to the items of the name followed by
    the items of the version. *)
Lemma compile_version_pattern (name : string) :
  name_ok name = true ->
  compile (make_version_pattern name) = Ok (name_items name ++ version_items).
Proof.
  intros Hok. unfold compile, make_version_pattern.
  rewrite (parse_name _ Hok), parse_version_suffix.
  now rewrite app_nil_r, rev_involutive.
Qed.

(** ** The matcher against the declarative reading *)

Lemma more_sound (p : list item) (a : atom) :
  (forall cap s r, match_here p cap s = Some r -> exists rest, run p cap s r rest) ->
  forall s cap r,
    more (match_here p) a cap s = Some r ->
    (exists rest, run p cap s r rest) \/
    (exists rest, run (Plus a :: p) cap s r rest).
Proof.
  intros Hk. induction s as [|c s IH]; intros cap r H; cbn [more] in H.
  - left. now apply Hk.
  - destruct (atom_matches a c) eqn:Ea; [|left; now apply Hk].
    destruct (more (match_here p) a (record c cap) s) as [r'|] eqn:Em;
      [|left; now apply Hk].
    injection H as <-. right.
    destruct (IH _ _ Em) as [[rest Hr] | [rest Hr]]; exists rest.
    + now apply run_plus_last.
    + now apply run_plus_more.
Qed.

(** Whatever the matcher returns is a match. *)
Lemma match_here_sound (p : list item) :
  forall cap s r, match_here p cap s = Some r -> exists rest, run p cap s r rest.
Proof.
  induction p as [|[a|a| |] p IH]; intros cap s r H; cbn [match_here] in H.
  - injection H as <-. exists s. constructor.
  - destruct s as [|c s]; [discriminate|].
    destruct (atom_matches a c) eqn:Ea; [|discriminate].
    destruct (IH _ _ _ H) as [rest Hr]. exists rest. now constructor.
  - destruct s as [|c s]; [discriminate|].
    destruct (atom_matches a c) eqn:Ea; [|discriminate].
    destruct (more_sound a IH _ _ H) as [[rest Hr] | [rest Hr]]; exists rest.
    + now apply run_plus_last.
    + now apply run_plus_more.
  - destruct (IH _ _ _ H) as [rest Hr]. exists rest. now constructor.
  - destruct (IH _ _ _ H) as [rest Hr]. exists rest. now constructor.
Qed.

Lemma more_complete (k : capture -> string -> option capture) (a : atom)
      (cap : capture) (s : string) :
  (exists r, k cap s = Some r) -> exists r, more k a cap s = Some r.
Proof.
  intros [r Hr]. destruct s as [|c s]; cbn [more]; [eauto|].
  destruct (atom_matches a c); [|eauto].
  destruct (more k a (record c cap) s); eauto.
Qed.

(** Wherever there is a match, the matcher returns one. *)
Lemma match_here_complete (p : list item) (cap : capture) (s : string)
      (cap' : capture) (rest : string) :
  run p cap s cap' rest -> exists r, match_here p cap s = Some r.
Proof.
  induction 1 as [cap s | a p c s cap cap' rest Ha _ IH
                  | p s cap cap' rest _ IH | p s cap cap' rest _ IH
                  | a p c s cap cap' rest Ha _ IH
                  | a p c s cap cap' rest Ha _ IH]; cbn [match_here].
  - eauto.
  - now rewrite Ha.
  - exact IH.
  - exact IH.
  - rewrite Ha. now apply more_complete.
  - rewrite Ha. destruct IH as [r IH]. cbn [match_here] in IH.
    destruct s as [|c2 s2]; [discriminate|]. cbn [more].
    destruct (atom_matches a c2); [|discriminate].
    rewrite IH. eauto.
Qed.

Lemma scan_sound (p : list item) (s : string) (r : capture) :
  scan p s = Some r ->
  exists pre s', s = (pre ++ s')%string /\ match_here p NotYet s' = Some r.
Proof.
  induction s as [|c s IH]; cbn [scan]; intros H.
  - destruct (match_here p NotYet "") eqn:E; [|discriminate].
    injection H as <-. now exists EmptyString, EmptyString.
  - destruct (match_here p NotYet (String c s)) eqn:E.
    + injection H as <-. now exists EmptyString, (String c s).
    + destruct (IH H) as (pre & s' & -> & Hm).
      now exists (String c pre), s'.
Qed.

Lemma scan_complete (p : list item) (pre s' : string) (r : capture) :
  match_here p NotYet s' = Some r ->
  exists r', scan p (pre ++ s') = Some r'.
Proof.
  intros Hm. induction pre as [|c pre IH]; cbn [append].
  - destruct s' as [|c s']; cbn [scan]; rewrite Hm; eauto.
  - cbn [scan]. destruct (match_here p NotYet (String c (pre ++ s'))); eauto.
Qed.

(** ** The items of the version pattern *)

(** Appends are brought to right-nested form and literals are unfolded. *)
Ltac normalize_append :=
  repeat first [rewrite StrFacts.append_assoc | progress cbn [append]].

Lemma same_letter_hyphen (c : ascii) : same_letter c "-" = true -> c = "-"%char.
Proof.
  destruct c as [[] [] [] [] [] [] [] []]; intros H;
    try discriminate H; reflexivity.
Qed.

Lemma same_letter_dot (c : ascii) : same_letter c "." = true -> c = "."%char.
Proof.
  destruct c as [[] [] [] [] [] [] [] []]; intros H;
    try discriminate H; reflexivity.
Qed.

Lemma run_name_items (name : string) (q : list item) :
  forall s cap rest,
    run (name_items name ++ q) NotYet s cap rest ->
    exists t s',
      s = (t ++ s')%string /\ name_matches name t = true /\
      run q NotYet s' cap rest.
Proof.
  induction name as [|c name IH]; intros s cap rest H; cbn [name_items app] in H.
  - now exists EmptyString, s.
  - inversion H as [|a p d s0 cap0 cap1 rest0 Ha Hr| | | |]; subst.
    destruct (IH _ _ _ Hr) as (t & s' & -> & Ht & Hq).
    exists (String d t), s'. cbn [name_matches]. now rewrite Ha, Ht.
Qed.

Lemma run_name_items_intro (name : string) (q : list item) :
  forall t s cap rest,
    name_matches name t = true ->
    run q NotYet s cap rest ->
    run (name_items name ++ q) NotYet (t ++ s) cap rest.
Proof.
  induction name as [|c name IH]; intros [|d t] s cap rest Ht Hq;
    cbn [name_matches] in Ht; try discriminate; cbn [name_items app append].
  - exact Hq.
  - apply andb_true_iff in Ht. destruct Ht as [Ha Ht].
    constructor; [exact Ha|]. now apply IH.
Qed.

(** [\d+] inside the group takes a non-empty run of digits. *)
Lemma run_digits (q : list item) (p : list item) (cap : capture) (s : string)
      (r : capture) (rest : string) :
  run p cap s r rest ->
  forall acc,
    p = Plus Digit :: q -> cap = Inside 0 acc ->
    exists d s',
      s = (d ++ s')%string /\ is_number d = true /\
      run q (Inside 0 (acc ++ d)) s' r rest.
Proof.
  induction 1 as [| | | | a p c s cap cap' rest Ha Hr _
                  | a p c s cap cap' rest Ha _ IH];
    intros acc Hp Hcap; try discriminate Hp.
  - injection Hp as -> ->. subst cap.
    exists (String c EmptyString), s. cbn in Ha |- *.
    now rewrite Ha.
  - injection Hp as -> ->. subst cap.
    destruct (IH (acc ++ String c EmptyString)%string eq_refl eq_refl)
      as (d & s' & -> & Hd & Hq).
    exists (String c d), s'. split; [reflexivity|]. split.
    + cbn in Ha |- *. rewrite Ha. destruct d; [discriminate | exact Hd].
    + rewrite StrFacts.append_assoc in Hq. exact Hq.
Qed.

Lemma run_digits_intro (q : list item) (d : string) :
  forall acc s r rest,
    is_number d = true ->
    run q (Inside 0 (acc ++ d)) s r rest ->
    run (Plus Digit :: q) (Inside 0 acc) (d ++ s) r rest.
Proof.
  induction d as [|c d IH]; intros acc s r rest Hd Hq; [discriminate|].
  cbn in Hd. apply andb_true_iff in Hd. destruct Hd as [Hc Hd].
  destruct d as [|c2 d].
  - apply run_plus_last; [exact Hc | exact Hq].
  - apply run_plus_more; [exact Hc|].
    apply IH; [exact Hd|].
    cbn [record]. rewrite StrFacts.append_assoc. exact Hq.
Qed.

(** A match of [\-(\d+\.\d+\.\d+)] is a hyphen followed by a version,
    and the group holds the version. *)
Lemma run_version_items (s : string) (cap : capture) (rest : string) :
  run version_items NotYet s cap rest ->
  exists v, s = ("-" ++ v ++ rest)%string /\ cap = Closed v /\ is_version v.
Proof.
  unfold version_items. intros H.
  inversion H as [|a p c s0 cap0 cap1 rest0 Ha H1| | | |]; subst; clear H.
  apply same_letter_hyphen in Ha. subst c.
  inversion H1 as [| |p s1 cap0 cap1 rest0 H2| | |]; subst; clear H1.
  cbn [record open_group] in H2.
  destruct (run_digits H2 eq_refl eq_refl) as (major & s1 & -> & Hmajor & H3).
  clear H2.
  inversion H3 as [|a p c s2 cap0 cap1 rest0 Ha H4| | | |]; subst; clear H3.
  apply same_letter_dot in Ha. subst c. cbn [record] in H4.
  destruct (run_digits H4 eq_refl eq_refl) as (minor & s3 & -> & Hminor & H5).
  clear H4.
  inversion H5 as [|a p c s4 cap0 cap1 rest0 Ha H6| | | |]; subst; clear H5.
  apply same_letter_dot in Ha. subst c. cbn [record] in H6.
  destruct (run_digits H6 eq_refl eq_refl) as (patch & s5 & -> & Hpatch & H7).
  clear H6.
  inversion H7 as [| | |p s6 cap0 cap1 rest0 H8| |]; subst; clear H7.
  cbn [close_group] in H8. inversion H8; subst; clear H8.
  exists (major ++ "." ++ minor ++ "." ++ patch)%string.
  split; [|split].
  - now normalize_append.
  - f_equal. now normalize_append.
  - now exists major, minor, patch.
Qed.

Lemma run_group_intro (acc major minor patch rest : string) :
  is_number major = true -> is_number minor = true -> is_number patch = true ->
  run [Plus Digit; One (Lit "."); Plus Digit; One (Lit "."); Plus Digit; Close]
      (Inside 0 acc)
      (major ++ "." ++ minor ++ "." ++ patch ++ rest)
      (Closed (((((acc ++ major) ++ ".") ++ minor) ++ ".") ++ patch)) rest.
Proof.
  intros Hmajor Hminor Hpatch.
  apply run_digits_intro; [exact Hmajor|]. cbn [append].
  apply run_one; [reflexivity|]. cbn [record].
  apply run_digits_intro; [exact Hminor|]. cbn [append].
  apply run_one; [reflexivity|]. cbn [record].
  apply run_digits_intro; [exact Hpatch|].
  apply run_close. apply run_nil.
Qed.

Lemma run_version_items_intro (major minor patch rest : string) :
  is_number major = true -> is_number minor = true -> is_number patch = true ->
  run version_items NotYet
      ("-" ++ (major ++ "." ++ minor ++ "." ++ patch) ++ rest)
      (Closed (major ++ "." ++ minor ++ "." ++ patch)) rest.
Proof.
  intros Hmajor Hminor Hpatch. unfold version_items.
  pose proof (@run_group_intro EmptyString major minor patch rest
                Hmajor Hminor Hpatch) as H.
  replace (((((EmptyString ++ major) ++ ".") ++ minor) ++ ".") ++ patch)%string
    with (major ++ "." ++ minor ++ "." ++ patch)%string in H
    by now normalize_append.
  replace ((major ++ "." ++ minor ++ "." ++ patch) ++ rest)%string
    with (major ++ "." ++ minor ++ "." ++ patch ++ rest)%string
    by now normalize_append.
  cbn [append] in H |- *.
  apply run_one; [reflexivity|]. apply run_open. exact H.
Qed.

(** ** What the search finds *)

(** A successful search has found the name, a hyphen and a version in
    the text, and group 1 is that version. *)
Lemma search_version_pattern_sound (name s : string) (m : capture) :
  name_ok name = true ->
  search (make_version_pattern name) s = Ok (Some m) ->
  exists pre t v post,
    s = (pre ++ t ++ "-" ++ v ++ post)%string /\
    name_matches name t = true /\
    is_version v /\
    m = Closed v /\ group1 m = Ok v.
Proof.
  intros Hok H. unfold search in H.
  rewrite (compile_version_pattern _ Hok) in H. cbn [rbind] in H.
  injection H as H.
  destruct (scan_sound _ _ H) as (pre & s' & -> & Hm).
  destruct (match_here_sound _ _ _ Hm) as [post Hr].
  destruct (run_name_items _ _ Hr) as (t & s'' & -> & Ht & Hv).
  destruct (run_version_items Hv) as (v & -> & -> & Hver).
  exists pre, t, v, post. repeat split; try assumption; reflexivity.
Qed.

(** A text that holds the name, a hyphen and a version is matched. *)
Lemma search_version_pattern_complete
        (name pre t major minor patch post : string) :
  name_ok name = true ->
  name_matches name t = true ->
  is_number major = true -> is_number minor = true -> is_number patch = true ->
  exists m,
    search (make_version_pattern name)
           (pre ++ t ++ "-" ++ (major ++ "." ++ minor ++ "." ++ patch) ++ post)
    = Ok (Some m).
Proof.
  intros Hok Ht Hmajor Hminor Hpatch. unfold search.
  rewrite (compile_version_pattern _ Hok). cbn [rbind].
  pose proof (@run_version_items_intro major minor patch post
                Hmajor Hminor Hpatch) as Hv.
  pose proof (@run_name_items_intro name _ t _ _ _ Ht Hv) as Hr.
  destruct (match_here_complete Hr) as [r Hm].
  destruct (scan_complete _ pre _ Hm) as [r' Hs].
  rewrite Hs. eauto.
Qed.

(** The two directions in terms of [found]. *)
Lemma search_found_sound (name reference : string) (m : capture) :
  name_ok name = true ->
  search (make_version_pattern name) reference = Ok (Some m) ->
  exists v, found name reference v /\ m = Closed v /\ group1 m = Ok v.
Proof.
  intros Hok H.
  destruct (@search_version_pattern_sound _ _ _ Hok H)
    as (pre & t & v & post & -> & Ht & Hv & -> & Hg).
  exists v. split; [|now split]. now exists pre, t, post.
Qed.

Lemma search_found_complete (name reference v : string) :
  name_ok name = true ->
  found name reference v ->
  exists m, search (make_version_pattern name) reference = Ok (Some m).
Proof.
  intros Hok (pre & t & post & -> & Ht & major & minor & patch & -> & Hn).
  destruct Hn as (Hmajor & Hminor & Hpatch).
  now apply search_version_pattern_complete.
Qed.

End PatternFacts.

(** * Properties of the requirement parser *)

Section Parser.
Import StrFacts.

(** A line without either separator: the split has one field and
    [package_info[1]] is out of range. *)
Lemma parse_package_no_separator (package : string) :
  Str.contains "==" package = false ->
  Str.contains " @ " package = false ->
  parse_package package = Raise IndexError.
Proof.
  intros Heq Hat. unfold parse_package.
  rewrite Heq, (split_absent _ _ Hat). reflexivity.
Qed.

(** A line [name==version] with a single occurrence of the separator. *)
Lemma split_pinned (name version : string) :
  Str.contains "==" (name ++ "=") = false ->
  Str.contains "==" version = false ->
  Str.split (name ++ "==" ++ version) "==" = [name; version].
Proof.
  intros Hname Hversion.
  pose proof (split_first "=" "="%char name version Hname) as H.
  change ("=" ++ "=")%string with "==" in H.
  now rewrite H, (split_absent _ _ Hversion).
Qed.

(** A line [name @ reference] with a single occurrence of the separator. *)
Lemma split_reference (name reference : string) :
  Str.contains " @ " (name ++ " @") = false ->
  Str.contains " @ " reference = false ->
  Str.split (name ++ " @ " ++ reference) " @ " = [name; reference].
Proof.
  intros Hname Hreference.
  pose proof (split_first " @" " "%char name reference Hname) as H.
  change (" @" ++ " ")%string with " @ " in H.
  now rewrite H, (split_absent _ _ Hreference).
Qed.

End Parser.

(** C2 (as amended): a line with neither '==' nor ' @ ' makes the parser
    raise IndexError at [package_info[1]], before the index is queried,
    and a run over a manifest that contains such a line ends in an
    exception instead of a report.  A line with nothing before '==' is
    not rejected: it is parsed with an empty name. *)
Theorem no_separator_aborts (World : Type)
        (pip : string -> World -> World * (Z * string))
        (package version : string) (before rest : list string) (w : World) :
  Str.contains "==" package = false ->
  Str.contains " @ " package = false ->
  Str.contains "==" version = false ->
  Str.startswith version "file" || Str.startswith version "http" = false ->
  parse_package package = Raise IndexError /\
  process_package pip package w = (w, Raise IndexError) /\
  compare_packages pip (package :: rest) w = (w, Raise IndexError) /\
  (exists w' e,
      compare_packages pip (before ++ package :: rest) w = (w', Raise e)) /\
  parse_package ("==" ++ version) = Ok ([""; version], "\-(\d+\.\d+\.\d+)").
Proof.
  intros Heq Hat Hversion Hguard.
  pose proof (parse_package_no_separator _ Heq Hat) as Hparse.
  assert (Hproc : forall v, process_package pip package v = (v, Raise IndexError)).
  { intros v. unfold process_package, bind, lift. now rewrite Hparse. }
  split; [exact Hparse|]. split; [apply Hproc|]. split; [|split].
  - unfold compare_packages. cbn [compare_rows]. unfold bind.
    now rewrite Hproc.
  - unfold compare_packages. generalize [header]. revert w.
    induction before as [|b before IH]; intros w acc; cbn [app compare_rows].
    + unfold bind. rewrite Hproc. eauto.
    + unfold bind at 1. destruct (process_package pip b w) as [w1 [row|e]].
      * apply IH.
      * eauto.
  - change ("==" ++ version)%string with ("" ++ "==" ++ version)%string.
    unfold parse_package.
    rewrite StrFacts.contains_append,
      (@split_pinned EmptyString version eq_refl Hversion).
    cbn [index nth_error rbind]. now rewrite Hguard.
Qed.

Lemma no_separator_aborts_witness :
  parse_package "foo" = Raise IndexError /\
  process_package pip_offline "foo" tt = (tt, Raise IndexError) /\
  compare_packages pip_offline ["foo"; "bar==2.0"] tt = (tt, Raise IndexError) /\
  (exists w' e,
      compare_packages pip_offline ["foo==1.0"; "foo"; "bar==2.0"] tt
      = (w', Raise e)) /\
  parse_package "==1.0" = Ok ([""; "1.0"], "\-(\d+\.\d+\.\d+)").
Proof.
  exact (@no_separator_aborts unit pip_offline "foo" "1.0"
           ["foo==1.0"] ["bar==2.0"] tt eq_refl eq_refl eq_refl eq_refl).
Defined.

(** C2 as stated fails: a line without separator raises IndexError, the
    only exception of the lookup [package_info[1]], and a line with
    nothing before the separator, [==1.0], does not fail at all: the run
    completes with a row for it. *)
Lemma empty_name_is_accepted :
  parse_package "foo" = Raise IndexError /\
  parse_package "==1.0" = Ok ([""; "1.0"], "\-(\d+\.\d+\.\d+)") /\
  compare_packages pip_offline ["==1.0"] tt
  = (tt, Ok [header; [""; "1.0"; "n/a"; "n/a"]]).
Proof. repeat split; reflexivity. Qed.

(** C5 (as amended): a line [name==version] in which '==' occurs once is
    split into exactly the two fields [name] and [version]; the version
    is kept verbatim when it does not start with 'file' or 'http'. *)
Theorem parse_package_pinned (name version : string) :
  Str.contains "==" (name ++ "=") = false ->
  Str.contains "==" version = false ->
  Str.startswith version "file" || Str.startswith version "http" = false ->
  parse_package (name ++ "==" ++ version)
  = Ok ([name; version], make_version_pattern name).
Proof.
  intros Hname Hversion Hguard. unfold parse_package.
  rewrite StrFacts.contains_append, (split_pinned _ _ Hname Hversion).
  cbn [index nth_error rbind]. now rewrite Hguard.
Qed.

Lemma parse_package_pinned_witness :
  parse_package "foo==1.2.3" = Ok (["foo"; "1.2.3"], "foo\-(\d+\.\d+\.\d+)").
Proof.
  exact (@parse_package_pinned "foo" "1.2.3" eq_refl eq_refl eq_refl).
Defined.

(** C5 as stated fails on a line with two separators, which is split
    into three fields, and on a version that starts with 'http', which is
    not kept verbatim. *)
Lemma parse_package_pinned_not_two_fields :
  Str.contains "==" "foo==1.0==2.0" = true /\
  parse_package "foo==1.0==2.0"
  = Ok (["foo"; "1.0"; "2.0"], "foo\-(\d+\.\d+\.\d+)") /\
  compare_packages pip_offline ["foo==1.0==2.0"] tt
  = (tt, Ok [header; ["foo"; "1.0"; "2.0"; "n/a"; "n/a"]]) /\
  parse_package "foo==http/1.0" = Ok (["foo"; "1.0"], "foo\-(\d+\.\d+\.\d+)").
Proof. repeat split; reflexivity. Qed.

(** C4 (as amended): for a line [name @ reference] in which the separator
    occurs once, the pattern is searched only when the reference starts
    with 'file' or 'http'; then a match makes the captured group the
    declared version, and no match makes it the text after the last '/'.
    Any other reference is kept verbatim.  For a name without
    regular-expression operators the pattern is the name (letter case
    ignored, '-' also standing for '_'), a hyphen and
    [<major>.<minor>.<patch>]. *)
Theorem parse_package_reference (name reference : string) :
  Str.contains "==" (name ++ " @ " ++ reference) = false ->
  Str.contains " @ " (name ++ " @") = false ->
  Str.contains " @ " reference = false ->
  parse_package (name ++ " @ " ++ reference)
  = (if Str.startswith reference "file" || Str.startswith reference "http"
     then
       file_version <~ Re.search (make_version_pattern name) reference ;;
       match file_version with
       | Some m =>
           version <~ Re.group1 m ;;
           Ok ([name; version], make_version_pattern name)
       | None =>
           Ok ([name; after_last "/" reference], make_version_pattern name)
       end
     else Ok ([name; reference], make_version_pattern name)) /\
  (Pattern.name_ok name = true ->
   Str.startswith reference "file" || Str.startswith reference "http" = true ->
   ((exists v, Pattern.found name reference v) ->
    exists v,
      Pattern.found name reference v /\
      parse_package (name ++ " @ " ++ reference)
      = Ok ([name; v], make_version_pattern name)) /\
   ((forall v, ~ Pattern.found name reference v) ->
    parse_package (name ++ " @ " ++ reference)
    = Ok ([name; after_last "/" reference], make_version_pattern name))).
Proof.
  intros Heq Hname Hreference.
  assert (E : parse_package (name ++ " @ " ++ reference)
              = (if Str.startswith reference "file"
                    || Str.startswith reference "http"
                 then
                   file_version <~ Re.search (make_version_pattern name) reference ;;
                   match file_version with
                   | Some m =>
                       version <~ Re.group1 m ;;
                       Ok ([name; version], make_version_pattern name)
                   | None =>
                       Ok ([name; after_last "/" reference],
                           make_version_pattern name)
                   end
                 else Ok ([name; reference], make_version_pattern name))).
  { unfold parse_package.
    rewrite Heq, (split_reference _ _ Hname Hreference).
    cbn [index nth_error rbind].
    destruct (Str.startswith reference "file"
              || Str.startswith reference "http"); [|reflexivity].
    destruct (Re.search (make_version_pattern name) reference) as [[m|]|e];
      cbn [rbind]; try reflexivity.
    now rewrite StrFacts.split_last_segment. }
  split; [exact E|].
  intros Hok Hguard. rewrite E, Hguard. split.
  - intros [v0 Hfound].
    destruct (@PatternFacts.search_found_complete _ _ _ Hok Hfound) as [m Hm].
    destruct (@PatternFacts.search_found_sound _ _ _ Hok Hm) as (v & Hv & -> & _).
    exists v. rewrite Hm. now split.
  - intros Hnone.
    destruct (Re.search (make_version_pattern name) reference)
      as [[m|]|e] eqn:Hs.
    + destruct (@PatternFacts.search_found_sound _ _ _ Hok Hs) as (v & Hv & _).
      now destruct (Hnone v).
    + reflexivity.
    + unfold Re.search in Hs.
      rewrite (PatternFacts.compile_version_pattern _ Hok) in Hs.
      discriminate Hs.
Qed.

Lemma parse_package_reference_witness :
  parse_package "foo @ http://example.com/bar.whl"
  = Ok (["foo"; "bar.whl"], "foo\-(\d+\.\d+\.\d+)") /\
  parse_package "foo @ file:///path/foo-1.2.3.tar.gz"
  = Ok (["foo"; "1.2.3"], "foo\-(\d+\.\d+\.\d+)").
Proof.
  split.
  - exact (proj1 (@parse_package_reference "foo" "http://example.com/bar.whl"
                    eq_refl eq_refl eq_refl)).
  - exact (proj1 (@parse_package_reference "foo"
                    "file:///path/foo-1.2.3.tar.gz"
                    eq_refl eq_refl eq_refl)).
Defined.

(** C4 as stated fails on a reference that starts with neither 'file'
    nor 'http': the pattern would match, yet the declared version is the
    whole reference, not the captured group and not the last segment. *)
Lemma parse_package_reference_unguarded :
  Re.search (make_version_pattern "foo")
            "git+https://example.com/foo-1.2.3.tar.gz"
  = Ok (Some (Re.Closed "1.2.3")) /\
  parse_package "foo @ git+https://example.com/foo-1.2.3.tar.gz"
  = Ok (["foo"; "git+https://example.com/foo-1.2.3.tar.gz"],
        "foo\-(\d+\.\d+\.\d+)").
Proof. split; reflexivity. Qed.

(** * Properties of the report *)

Section Report.

Variable World : Type.
Variable pip : string -> World -> World * (Z * string).

(** The loop returns a report exactly when every line, processed in
    order, yields a row; the report is then the rows collected so far
    followed by the new rows in the order of the lines. *)
Lemma compare_rows_spec (packages : list string) :
  forall (acc : list (list string)) (w w' : World) (report : list (list string)),
    compare_rows pip packages acc w = (w', Ok report) <->
    exists rows, report = acc ++ rows /\ rows_of pip w packages rows w'.
Proof.
  induction packages as [|package rest IH]; intros acc w w' report.
  - cbn [compare_rows]. unfold ret. split.
    + intros H. injection H as <- <-. exists [].
      split; [now rewrite app_nil_r | constructor].
    + intros (rows & -> & H). inversion H; subst. now rewrite app_nil_r.
  - cbn [compare_rows]. unfold bind at 1. split.
    + destruct (process_package pip package w) as [w1 [row|e]] eqn:E;
        [|discriminate].
      intros H. apply IH in H. destruct H as (rows & -> & H).
      exists (row :: rows). split.
      * now rewrite <- app_assoc.
      * econstructor; eassumption.
    + intros (rows & -> & H). inversion H as [|? w1 ? ? ? row rows' E H']; subst.
      rewrite E. apply IH. exists rows'. split; [|assumption].
      now rewrite <- app_assoc.
Qed.

Lemma rows_of_length (packages : list string) :
  forall w rows w', rows_of pip w packages rows w' -> length rows = length packages.
Proof.
  induction packages as [|package rest IH]; intros w rows w' H;
    inversion H; subst; simpl; [reflexivity|].
  f_equal. eapply IH. eassumption.
Qed.

(** The row at position [i] is the row of the line at position [i]. *)
Lemma rows_of_nth (packages : list string) :
  forall w rows w',
    rows_of pip w packages rows w' ->
    forall i package,
      nth_error packages i = Some package ->
      exists wi wi' row,
        nth_error rows i = Some row /\
        process_package pip package wi = (wi', Ok row).
Proof.
  induction packages as [|p rest IH]; intros w rows w' H i package Hi.
  - destruct i; discriminate.
  - inversion H as [|? w1 ? ? ? row rows' E H']; subst.
    destruct i as [|i]; simpl in Hi.
    + injection Hi as <-. exists w, w1, row. now split.
    + apply (IH _ _ _ H' i package Hi).
Qed.

(** A row is the fields of the parsed line followed by the latest version
    and the classification of the declared version against it. *)
Lemma process_package_row (package : string) (w w' : World) (row : list string) :
  process_package pip package w = (w', Ok row) ->
  exists package_info version_pattern declared version comparison,
    parse_package package = Ok (package_info, version_pattern) /\
    nth_error package_info 1 = Some declared /\
    compare_versions declared version = Ok comparison /\
    row = package_info ++ [version; comparison].
Proof.
  unfold process_package, bind, lift, ret, index.
  destruct (parse_package package) as [[package_info version_pattern]|e];
    [|discriminate].
  destruct (nth_error package_info 0) as [name|]; [|discriminate].
  destruct (latest_version pip name version_pattern w) as [w1 [version|e]];
    [|discriminate].
  destruct (nth_error package_info 1) as [declared|] eqn:D; [|discriminate].
  destruct (compare_versions declared version) as [comparison|e] eqn:E;
    [|discriminate].
  intros H. injection H as _ <-.
  now exists package_info, version_pattern, declared, version, comparison.
Qed.

(** A run in which every line yields a row does return the report. *)
Lemma compare_packages_complete (packages : list string) (w w' : World)
      (rows : list (list string)) :
  rows_of pip w packages rows w' ->
  compare_packages pip packages w = (w', Ok (header :: rows)).
Proof.
  intros H. unfold compare_packages. apply compare_rows_spec. now exists rows.
Qed.

End Report.

(** C9: the report that a run produces is the header row followed by
    exactly one row per manifest line, the row at each position being the
    one computed from the line at that position, whatever the package
    index answers. *)
Theorem report_follows_manifest (World : Type)
        (pip : string -> World -> World * (Z * string))
        (packages : list string) (w w' : World) (report : list (list string)) :
  compare_packages pip packages w = (w', Ok report) ->
  exists rows,
    report = header :: rows /\
    length rows = length packages /\
    rows_of pip w packages rows w' /\
    forall i package,
      nth_error packages i = Some package ->
      exists wi wi' row,
        nth_error rows i = Some row /\
        process_package pip package wi = (wi', Ok row).
Proof.
  intros H. unfold compare_packages in H.
  apply compare_rows_spec in H. destruct H as (rows & -> & H).
  exists rows. split; [reflexivity|]. split; [|split].
  - eapply rows_of_length; eassumption.
  - assumption.
  - eapply rows_of_nth; eassumption.
Qed.

(** The end-to-end scenario of the specification. *)
Lemma report_follows_manifest_witness :
  compare_packages pip_mock ["alpha==1.0.0"; "beta==2.5.1"] 0
  = (2, Ok [header; ["alpha"; "1.0.0"; "1.0.0"; "match"];
                    ["beta"; "2.5.1"; "3.0.0"; "major"]]) /\
  exists rows,
    [header; ["alpha"; "1.0.0"; "1.0.0"; "match"];
             ["beta"; "2.5.1"; "3.0.0"; "major"]] = header :: rows /\
    length rows = 2 /\
    rows_of pip_mock 0 ["alpha==1.0.0"; "beta==2.5.1"] rows 2 /\
    forall i package,
      nth_error ["alpha==1.0.0"; "beta==2.5.1"] i = Some package ->
      exists wi wi' row,
        nth_error rows i = Some row /\
        process_package pip_mock package wi = (wi', Ok row).
Proof.
  split; [reflexivity|].
  exact (@report_follows_manifest nat pip_mock ["alpha==1.0.0"; "beta==2.5.1"]
           0 2 _ eq_refl).
Defined.


(** * Further properties of the version classifier *)

Section ClassifierFacts.

(** The loop never answers 'match'. *)
Lemma compare_loop_not_match (items : list (nat * (string * string))) :
  compare_loop items <> Ok "match".
Proof.
  induction items as [|[idx [c l]] rest IH]; simpl; [discriminate|].
  destruct (negb (String.eqb c l)); [|exact IH].
  destruct idx as [|[|[|k]]]; discriminate.
Qed.

(** From index 1 on, the loop never answers 'major'. *)
Lemma compare_loop_not_major (l : list (string * string)) :
  forall n, 1 <= n -> compare_loop (enumerate_from n l) <> Ok "major".
Proof.
  induction l as [|[c d] l IH]; intros n Hn; simpl; [discriminate|].
  destruct (negb (String.eqb c d)).
  - destruct n as [|[|[|k]]]; [lia | discriminate..].
  - apply IH. lia.
Qed.

(** A fall-through of the loop means that the zipped components agree. *)
Lemma compare_loop_fallthrough (la lb : list string) :
  forall n,
    compare_loop (enumerate_from n (zip la lb)) = Ok "n/a" ->
    forall j x y, nth_error la j = Some x -> nth_error lb j = Some y -> x = y.
Proof.
  revert lb. induction la as [|a la IH]; intros [|b lb] n H j x y Hx Hy;
    try (destruct j; discriminate).
  simpl in H. destruct (String.eqb a b) eqn:E; simpl in H.
  - destruct j as [|j]; simpl in Hx, Hy.
    + apply String.eqb_eq in E. congruence.
    + apply (IH lb (S n) H j x y Hx Hy).
  - destruct n as [|[|[|k]]]; discriminate.
Qed.

(** A KeyError of the loop names an index that both lists have. *)
Lemma compare_loop_key_bound (la lb : list string) :
  forall n k,
    compare_loop (enumerate_from n (zip la lb)) = Raise (KeyError k) ->
    k < n + length la /\ k < n + length lb.
Proof.
  revert lb. induction la as [|a la IH]; intros [|b lb] n k H;
    try discriminate H.
  simpl in H. destruct (negb (String.eqb a b)).
  - destruct n as [|[|[|m]]]; try discriminate H.
    injection H as <-. simpl. lia.
  - destruct (IH lb (S n) k H). simpl. lia.
Qed.

(** Lists that agree wherever both have an entry: one extends the other. *)
Lemma agree_prefix (la lb : list string) :
  (forall j x y, nth_error la j = Some x -> nth_error lb j = Some y -> x = y) ->
  exists extra, lb = la ++ extra \/ la = lb ++ extra.
Proof.
  revert lb. induction la as [|a la IH]; intros lb H.
  - exists lb. now left.
  - destruct lb as [|b lb].
    + exists (a :: la). now right.
    + assert (a = b) as <- by (apply (H 0); reflexivity).
      destruct (IH lb) as [extra [-> | ->]].
      * intros j x y Hx Hy. apply (H (S j)); assumption.
      * exists extra. now left.
      * exists extra. now right.
Qed.

End ClassifierFacts.

Module SplitFacts.
Import Str StrFacts.

Lemma append_nil_r (s : string) : (s ++ "")%string = s.
Proof. induction s as [|c s IH]; simpl; [reflexivity | now rewrite IH]. Qed.

Lemma startswith_decompose (p : string) :
  forall s, startswith s p = true -> exists r, s = (p ++ r)%string.
Proof.
  induction p as [|c p IH]; intros s H; [now exists s|].
  destruct s as [|d s]; simpl in H; [discriminate|].
  apply andb_true_iff in H. destruct H as [Hc Hp].
  apply Ascii.eqb_eq in Hc. subst d.
  destruct (IH s Hp) as [r ->]. now exists r.
Qed.

Lemma join_cons (sep x : string) (l : list string) :
  l <> [] -> join sep (x :: l) = (x ++ sep ++ join sep l)%string.
Proof. destruct l; [congruence | reflexivity]. Qed.

(** [sep.join(s.split(sep))] is [s]. *)
Lemma join_split (c : ascii) (sep' : string) (s : string) :
  join (String c sep') (split s (String c sep')) = s.
Proof.
  unfold split. remember (String.length s) as n eqn:Hn.
  revert s Hn. induction n as [n IH] using lt_wf_ind. intros s Hn.
  destruct s as [|x s]; [reflexivity|].
  cbn [split_from].
  destruct (startswith (String x s) (String c sep')) eqn:E.
  - destruct (startswith_decompose _ _ E) as [r Hr].
    cbn [append] in Hr. injection Hr as -> ->.
    cbn [String.length]. rewrite Nat.sub_succ, Nat.sub_0_r, split_from_skip.
    rewrite join_cons by apply split_from_nonempty.
    rewrite (IH (String.length r)); [reflexivity| |reflexivity].
    subst n. cbn [String.length]. rewrite append_length. lia.
  - assert (Hs : join (String c sep') (split_from (String c sep') 0 s) = s).
    { apply (IH (String.length s)); [subst n; simpl; lia | reflexivity]. }
    destruct (split_from (String c sep') 0 s) as [|f fs] eqn:F.
    + now apply split_from_nonempty in F.
    + destruct fs as [|g fs]; cbn [join append] in Hs |- *; now rewrite Hs.
Qed.

End SplitFacts.

Module VersionFacts.
Import Re Pattern.

Lemma digit_not_dot (c : ascii) : is_digit c = true -> Ascii.eqb c "." = false.
Proof.
  destruct c as [[] [] [] [] [] [] [] []]; intros H;
    try discriminate H; reflexivity.
Qed.

Lemma all_digits_no_dot (d : string) :
  all_digits d = true -> Str.contains "." d = false.
Proof.
  induction d as [|c d IH]; intros H; [reflexivity|].
  cbn [all_digits] in H. apply andb_true_iff in H. destruct H as [Hc Hd].
  cbn [Str.contains Str.startswith]. now rewrite (digit_not_dot c Hc), (IH Hd).
Qed.

Lemma is_number_all_digits (d : string) : is_number d = true -> all_digits d = true.
Proof. destruct d; [discriminate | trivial]. Qed.

(** A version has exactly three components. *)
Lemma split_version (major minor patch : string) :
  is_number major = true -> is_number minor = true -> is_number patch = true ->
  Str.split (major ++ "." ++ minor ++ "." ++ patch) "." = [major; minor; patch].
Proof.
  intros Hmajor Hminor Hpatch.
  apply is_number_all_digits, all_digits_no_dot in Hmajor, Hminor, Hpatch.
  pose proof (@StrFacts.split_first EmptyString "."%char) as Hsplit.
  cbn [append] in Hsplit |- *.
  rewrite Hsplit by now rewrite SplitFacts.append_nil_r.
  rewrite Hsplit by now rewrite SplitFacts.append_nil_r.
  now rewrite (StrFacts.split_absent _ _ Hpatch).
Qed.

End VersionFacts.

(** X1: whatever the two strings are, the classifier either returns one of
    the five values or raises KeyError for an index of at least 3; it
    raises nothing else. *)
Theorem compare_versions_results (a b : string) :
  (exists v, compare_versions a b = Ok v /\
             In v ["match"; "major"; "minor"; "patch"; "n/a"]) \/
  (exists k, compare_versions a b = Raise (KeyError k) /\ 3 <= k /\
             k < length (Str.split a ".") /\ k < length (Str.split b ".")).
Proof.
  unfold compare_versions.
  destruct (String.eqb a "n/a" || String.eqb b "n/a").
  - left. exists "n/a". simpl. tauto.
  - destruct (String.eqb a b).
    + left. exists "match". simpl. tauto.
    + destruct (compare_loop_outcomes
                  (enumerate (zip (Str.split a ".") (Str.split b "."))))
        as [H | (k & Hk & Hge)]; [now left|].
      right. exists k. split; [exact Hk|]. split; [exact Hge|].
      now apply (compare_loop_key_bound _ _ 0).
Qed.

(** X3: the classifier answers 'match' exactly when the two strings are
    equal and are not the sentinel. *)
Theorem compare_versions_match_iff (a b : string) :
  compare_versions a b = Ok "match" <-> a = b /\ a <> "n/a".
Proof.
  split.
  - unfold compare_versions. intros H.
    destruct (String.eqb a "n/a") eqn:Ea; [discriminate H|].
    destruct (String.eqb b "n/a") eqn:Eb; [discriminate H|]. simpl in H.
    destruct (String.eqb a b) eqn:Eab.
    + apply String.eqb_eq in Eab. apply String.eqb_neq in Ea. now split.
    + now apply compare_loop_not_match in H.
  - intros [<- Ha]. unfold compare_versions.
    apply String.eqb_neq in Ha. rewrite Ha. simpl.
    now rewrite String.eqb_refl.
Qed.

(** X4: the classifier answers 'major' exactly when neither string is the
    sentinel and the texts before the first '.' differ. *)
Theorem compare_versions_major_iff (a b : string) :
  compare_versions a b = Ok "major" <->
  a <> "n/a" /\ b <> "n/a" /\
  nth_error (Str.split a ".") 0 <> nth_error (Str.split b ".") 0.
Proof.
  split.
  - unfold compare_versions. intros H.
    destruct (String.eqb a "n/a") eqn:Ea; [discriminate H|].
    destruct (String.eqb b "n/a") eqn:Eb; [discriminate H|]. simpl in H.
    apply String.eqb_neq in Ea, Eb.
    destruct (String.eqb a b); [discriminate H|].
    split; [exact Ea|]. split; [exact Eb|].
    destruct (Str.split a ".") as [|x la]; [discriminate H|].
    destruct (Str.split b ".") as [|y lb]; [discriminate H|].
    simpl in H |- *. destruct (String.eqb x y) eqn:Exy; simpl in H.
    + now apply compare_loop_not_major in H.
    + apply String.eqb_neq in Exy. congruence.
  - intros (Ha & Hb & Hfirst).
    destruct (Str.split a ".") as [|x la] eqn:Sa;
      [now apply StrFacts.split_from_nonempty in Sa|].
    destruct (Str.split b ".") as [|y lb] eqn:Sb;
      [now apply StrFacts.split_from_nonempty in Sb|].
    assert (Hxy : x <> y) by (intros ->; now apply Hfirst).
    assert (Hab : a <> b) by (intros ->; congruence).
    apply (@compare_versions_first_diff a b 0 x y); try assumption.
    + now rewrite Sa.
    + now rewrite Sb.
    + intros j Hj. lia.
Qed.

(** X5: for two strings other than the sentinel, the answer 'n/a' means
    that the components of one are those of the other followed by at
    least one more component. *)
Theorem compare_versions_na_is_extension (a b : string) :
  a <> "n/a" -> b <> "n/a" ->
  compare_versions a b = Ok "n/a" ->
  exists extra,
    extra <> [] /\
    (Str.split b "." = Str.split a "." ++ extra \/
     Str.split a "." = Str.split b "." ++ extra).
Proof.
  intros Ha Hb H. unfold compare_versions in H.
  apply String.eqb_neq in Ha, Hb. rewrite Ha, Hb in H. simpl in H.
  destruct (String.eqb a b) eqn:Eab; [discriminate H|].
  apply String.eqb_neq in Eab.
  pose proof (compare_loop_fallthrough _ _ 0 H) as Hagree.
  destruct (agree_prefix _ _ Hagree) as [extra Hextra].
  exists extra. split; [|exact Hextra].
  intros ->. rewrite !app_nil_r in Hextra.
  apply Eab.
  rewrite <- (SplitFacts.join_split "." EmptyString a),
          <- (SplitFacts.join_split "." EmptyString b).
  destruct Hextra as [-> | ->]; reflexivity.
Qed.

Lemma compare_versions_na_is_extension_witness :
  exists extra,
    extra <> [] /\
    (Str.split "1.2.0" "." = Str.split "1.2" "." ++ extra \/
     Str.split "1.2" "." = Str.split "1.2.0" "." ++ extra).
Proof.
  apply (@compare_versions_na_is_extension "1.2" "1.2.0");
    [discriminate | discriminate | reflexivity].
Defined.



(** Witness for [compare_versions_key_error]: a difference in the fifth
    component. *)
Lemma compare_versions_key_error_witness :
  compare_versions "2024.1.0.0.1" "2024.1.0.0.2" = Raise (KeyError 4).
Proof.
  apply (@compare_versions_key_error "2024.1.0.0.1" "2024.1.0.0.2" 4 "1" "2");
    try discriminate; try reflexivity; [|lia].
  intros j Hj. do 4 (destruct j as [|j]; [reflexivity|]). lia.
Defined.

(** * Further properties of the parser and of the loop *)

(** A successful parse has at least two fields, and the pattern is the
    one built from the first. *)
Lemma parse_package_fields (package : string) (info : list string) (pat : string) :
  parse_package package = Ok (info, pat) ->
  exists name declared more,
    info = name :: declared :: more /\ pat = make_version_pattern name.
Proof.
  unfold parse_package.
  destruct (if Str.contains "==" package
            then Str.split package "==" else Str.split package " @ ")
    as [|name [|reference more]]; cbn [index nth_error rbind];
    try discriminate.
  destruct (Str.startswith reference "file" || Str.startswith reference "http").
  - destruct (Re.search (make_version_pattern name) reference) as [[m|]|e];
      cbn [rbind]; try discriminate.
    + destruct (Re.group1 m) as [v|e]; cbn [rbind set_index]; [|discriminate].
      intros H. injection H as <- <-. now exists name, v, more.
    + destruct (index_last (Str.split reference "/")) as [v|e];
        cbn [rbind set_index]; [|discriminate].
      intros H. injection H as <- <-. now exists name, v, more.
  - intros H. injection H as <- <-. now exists name, reference, more.
Qed.

(** X7: a line that contains '==' always has a name and a version field,
    and joining the fields with '==' gives the line back; when the
    version field does not start with 'file' or 'http' the parser
    returns the fields unchanged and raises nothing. *)
Theorem parse_package_with_equals (package : string) :
  Str.contains "==" package = true ->
  exists name version more,
    Str.split package "==" = name :: version :: more /\
    Str.join "==" (name :: version :: more) = package /\
    (Str.startswith version "file" || Str.startswith version "http" = false ->
     parse_package package
     = Ok (name :: version :: more, make_version_pattern name)).
Proof.
  intros Hc.
  destruct (StrFacts.split_present _ _ _ Hc) as (name & version & more & E).
  exists name, version, more. split; [exact E|]. split.
  - rewrite <- E. apply SplitFacts.join_split.
  - intros Hguard. unfold parse_package. rewrite Hc, E.
    cbn [index nth_error rbind]. now rewrite Hguard.
Qed.

Lemma parse_package_with_equals_witness :
  exists name version more,
    Str.split "foo==1.0==2.0" "==" = name :: version :: more /\
    Str.join "==" (name :: version :: more) = "foo==1.0==2.0" /\
    (Str.startswith version "file" || Str.startswith version "http" = false ->
     parse_package "foo==1.0==2.0"
     = Ok (name :: version :: more, make_version_pattern name)).
Proof. exact (@parse_package_with_equals "foo==1.0==2.0" eq_refl). Defined.

Module DeclaredFacts.
Import Re Pattern.

Lemma contains_char_append (c : ascii) (a b : string) :
  Str.contains (String c EmptyString) (a ++ b)
  = Str.contains (String c EmptyString) a || Str.contains (String c EmptyString) b.
Proof.
  induction a as [|x a IH]; cbn [append].
  - destruct b; reflexivity.
  - cbn [Str.contains Str.startswith]. rewrite IH. now rewrite orb_assoc.
Qed.

Lemma after_last_free (c : ascii) (s : string) :
  Str.contains (String c EmptyString) (after_last c s) = false.
Proof.
  induction s as [|x s IH]; [reflexivity|]. cbn [after_last].
  destruct (Str.contains (String c EmptyString) s) eqn:E; [exact IH|].
  destruct (Ascii.eqb x c) eqn:Ex; [exact E|].
  cbn [Str.contains Str.startswith]. now rewrite Ex, E.
Qed.

Lemma digit_not_slash (c : ascii) : is_digit c = true -> Ascii.eqb c "/" = false.
Proof.
  destruct c as [[] [] [] [] [] [] [] []]; intros H;
    try discriminate H; reflexivity.
Qed.

Lemma all_digits_no_slash (d : string) :
  all_digits d = true -> Str.contains "/" d = false.
Proof.
  induction d as [|c d IH]; intros H; [reflexivity|].
  cbn [all_digits] in H. apply andb_true_iff in H. destruct H as [Hc Hd].
  cbn [Str.contains Str.startswith]. now rewrite (digit_not_slash c Hc), (IH Hd).
Qed.

Lemma version_no_slash (v : string) : is_version v -> Str.contains "/" v = false.
Proof.
  intros (major & minor & patch & -> & Hmajor & Hminor & Hpatch).
  apply VersionFacts.is_number_all_digits, all_digits_no_slash
    in Hmajor, Hminor, Hpatch.
  rewrite !contains_char_append, Hmajor, Hminor, Hpatch. reflexivity.
Qed.

End DeclaredFacts.

(** X8: on a line [name @ reference] whose name has no regular-expression
    operator and whose reference starts with 'file' or 'http', the
    parser raises nothing, and the declared version it returns never
    contains a '/'. *)
Theorem parse_package_reference_total (name reference : string) :
  Str.contains "==" (name ++ " @ " ++ reference) = false ->
  Str.contains " @ " (name ++ " @") = false ->
  Str.contains " @ " reference = false ->
  Pattern.name_ok name = true ->
  Str.startswith reference "file" || Str.startswith reference "http" = true ->
  exists declared,
    parse_package (name ++ " @ " ++ reference)
    = Ok ([name; declared], make_version_pattern name) /\
    Str.contains "/" declared = false.
Proof.
  intros Heq Hname Hreference Hok Hguard. unfold parse_package.
  rewrite Heq, (split_reference _ _ Hname Hreference).
  cbn [index nth_error rbind]. rewrite Hguard.
  destruct (Re.search (make_version_pattern name) reference) as [[m|]|e] eqn:Hs;
    cbn [rbind].
  - destruct (@PatternFacts.search_found_sound _ _ _ Hok Hs)
      as (v & (_ & _ & _ & _ & _ & Hv) & -> & _).
    exists v. split; [reflexivity|]. now apply DeclaredFacts.version_no_slash.
  - rewrite StrFacts.split_last_segment. cbn [rbind set_index].
    exists (after_last "/" reference). split; [reflexivity|].
    apply DeclaredFacts.after_last_free.
  - unfold Re.search in Hs.
    rewrite (PatternFacts.compile_version_pattern _ Hok) in Hs.
    discriminate Hs.
Qed.

Lemma parse_package_reference_total_witness :
  exists declared,
    parse_package "my-pkg @ file:///wheels/My_Pkg-10.2.33-py3-none-any.whl"
    = Ok (["my-pkg"; declared], make_version_pattern "my-pkg") /\
    Str.contains "/" declared = false.
Proof.
  exact (@parse_package_reference_total "my-pkg"
           "file:///wheels/My_Pkg-10.2.33-py3-none-any.whl"
           eq_refl eq_refl eq_refl eq_refl eq_refl).
Defined.

(** An unknown latest version is classified 'n/a'. *)
Lemma compare_versions_unknown_latest (declared : string) :
  compare_versions declared "n/a" = Ok "n/a".
Proof.
  unfold compare_versions.
  change (String.eqb "n/a" "n/a") with true. now rewrite orb_true_r.
Qed.

Section Lookup.

Variable World : Type.
Variable pip : string -> World -> World * (Z * string).

(** The scrape of the dry run, case by case, for a name without
    regular-expression operators. *)
Lemma latest_version_cases (name : string) (w w' : World) (rc : Z) (out : string) :
  Pattern.name_ok name = true ->
  pip name w = (w', (rc, out)) ->
  exists v,
    latest_version pip name (make_version_pattern name) w = (w', Ok v) /\
    ((rc <> 0%Z /\ v = "n/a") \/
     (rc = 0%Z /\ Pattern.found name out v) \/
     (rc = 0%Z /\ v = "n/a" /\ forall v', ~ Pattern.found name out v')).
Proof.
  intros Hok Hpip. unfold latest_version. rewrite Hpip.
  destruct (Z.eqb rc 0) eqn:Hrc.
  - apply Z.eqb_eq in Hrc.
    destruct (Re.search (make_version_pattern name) out) as [[m|]|e] eqn:Hs;
      cbn [rbind].
    + destruct (@PatternFacts.search_found_sound _ _ _ Hok Hs)
        as (v & Hv & -> & _).
      exists v. split; [reflexivity|]. right. left. now split.
    + exists "n/a". split; [reflexivity|]. right. right.
      split; [exact Hrc|]. split; [reflexivity|].
      intros v' Hv'.
      destruct (@PatternFacts.search_found_complete _ _ _ Hok Hv') as [m Hm].
      congruence.
    + unfold Re.search in Hs.
      rewrite (PatternFacts.compile_version_pattern _ Hok) in Hs.
      discriminate Hs.
  - apply Z.eqb_neq in Hrc. exists "n/a". split; [reflexivity|]. now left.
Qed.

(** Against the sentinel or a version the classifier returns a value. *)
Lemma compare_versions_latest_ok (declared latest : string) :
  latest = "n/a" \/ Pattern.is_version latest ->
  exists v, compare_versions declared latest = Ok v.
Proof.
  intros [-> | (major & minor & patch & -> & Hmajor & Hminor & Hpatch)].
  - exists "n/a". apply compare_versions_unknown_latest.
  - unfold compare_versions.
    destruct (String.eqb declared "n/a" || _); [eauto|].
    destruct (String.eqb declared _); [eauto|].
    rewrite (VersionFacts.split_version _ _ _ Hmajor Hminor Hpatch).
    destruct (compare_loop_outcomes
                (enumerate (zip (Str.split declared ".") [major; minor; patch])))
      as [(v & H & _) | (k & Hk & Hge)]; [eauto|].
    apply (compare_loop_key_bound _ _ 0) in Hk. simpl in Hk. lia.
Qed.

(** A well-formed line always yields a row. *)
Lemma process_package_total (package : string) (w : World) :
  well_formed_line package ->
  exists w' row, process_package pip package w = (w', Ok row).
Proof.
  intros (name & declared & more & Hparse & Hok).
  unfold process_package, bind, lift, ret. rewrite Hparse.
  cbn [index nth_error].
  destruct (pip name w) as [w' [rc out]] eqn:Hpip.
  destruct (@latest_version_cases _ _ _ _ _ Hok Hpip) as (v & -> & Hv).
  assert (Hlatest : v = "n/a" \/ Pattern.is_version v).
  { destruct Hv as [[_ ->] | [[_ (_ & _ & _ & _ & _ & Hver)] | [_ [-> _]]]];
      auto. }
  destruct (@compare_versions_latest_ok declared _ Hlatest) as [c ->].
  eauto.
Qed.

(** The rows collected over a prefix of the manifest are kept, and the
    loop goes on from the world the prefix left. *)
Lemma compare_rows_app (before rest : list string) :
  forall acc w w1 rows,
    rows_of pip w before rows w1 ->
    compare_rows pip (before ++ rest) acc w
    = compare_rows pip rest (acc ++ rows) w1.
Proof.
  induction before as [|b before IH]; intros acc w w1 rows H;
    inversion H as [|? w0 ? ? ? row rows' E H']; subst; cbn [app compare_rows].
  - now rewrite app_nil_r.
  - unfold bind at 1. rewrite E.
    rewrite (IH _ _ _ _ H'). now rewrite <- app_assoc.
Qed.

End Lookup.

(** X9: when the dry run for a parsed line fails (non-zero return code),
    the row is the parsed fields followed by 'n/a' and 'n/a'; the lookup
    failure raises nothing. *)
Theorem lookup_failure_row (World : Type)
        (pip : string -> World -> World * (Z * string))
        (package name pat out : string) (info : list string)
        (w w' : World) (rc : Z) :
  parse_package package = Ok (info, pat) ->
  nth_error info 0 = Some name ->
  pip name w = (w', (rc, out)) ->
  rc <> 0%Z ->
  process_package pip package w = (w', Ok (info ++ ["n/a"; "n/a"])).
Proof.
  intros Hparse Hname Hpip Hrc.
  destruct (@parse_package_fields _ _ _ Hparse) as (n & declared & more & -> & ->).
  cbn in Hname. injection Hname as ->.
  unfold process_package, bind, lift, ret. rewrite Hparse.
  cbn [index nth_error]. unfold latest_version. rewrite Hpip.
  apply Z.eqb_neq in Hrc. rewrite Hrc.
  now rewrite compare_versions_unknown_latest.
Qed.

Lemma lookup_failure_row_witness :
  process_package pip_offline "requests==2.31.0" tt
  = (tt, Ok (["requests"; "2.31.0"] ++ ["n/a"; "n/a"])).
Proof.
  apply (@lookup_failure_row unit pip_offline "requests==2.31.0" "requests"
           "requests\-(\d+\.\d+\.\d+)" EmptyString ["requests"; "2.31.0"]
           tt tt 1%Z); [reflexivity | reflexivity | reflexivity | discriminate].
Defined.

(** X10: when the dry run succeeds for a name without regular-expression
    operators, the latest version is a major.minor.patch text that
    follows the name and a hyphen somewhere in the output, or 'n/a' when
    the output holds no such text; nothing is raised. *)
Theorem latest_version_scraped (World : Type)
        (pip : string -> World -> World * (Z * string))
        (name out : string) (w w' : World) :
  Pattern.name_ok name = true ->
  pip name w = (w', (0%Z, out)) ->
  exists v,
    latest_version pip name (make_version_pattern name) w = (w', Ok v) /\
    (Pattern.found name out v \/
     (v = "n/a" /\ forall v', ~ Pattern.found name out v')).
Proof.
  intros Hok Hpip.
  destruct (@latest_version_cases _ pip _ _ _ _ _ Hok Hpip)
    as (v & Hv & [[Hrc _] | [[_ Hfound] | [_ Hnone]]]).
  - now destruct Hrc.
  - exists v. split; [exact Hv | now left].
  - exists v. split; [exact Hv | now right].
Qed.

Lemma latest_version_scraped_witness :
  exists v,
    latest_version pip_mock "alpha" (make_version_pattern "alpha") 0
    = (1, Ok v) /\
    (Pattern.found "alpha" "b'Would install alpha-1.0.0\n'" v \/
     (v = "n/a" /\
      forall v', ~ Pattern.found "alpha" "b'Would install alpha-1.0.0\n'" v')).
Proof.
  exact (@latest_version_scraped nat pip_mock "alpha"
           "b'Would install alpha-1.0.0\n'" 0 1 eq_refl eq_refl).
Defined.

(** X11: the row of a line [name==version] with a single '==' and a
    version that is not a file or http reference has the four columns of
    the header: the name, the version verbatim, the latest version and
    the classification of the two. *)
Theorem pinned_row (World : Type)
        (pip : string -> World -> World * (Z * string))
        (name version : string) (w w' : World) (row : list string) :
  Str.contains "==" (name ++ "=") = false ->
  Str.contains "==" version = false ->
  Str.startswith version "file" || Str.startswith version "http" = false ->
  process_package pip (name ++ "==" ++ version) w = (w', Ok row) ->
  exists latest comparison,
    row = [name; version; latest; comparison] /\
    compare_versions version latest = Ok comparison /\
    length row = length header.
Proof.
  intros Hname Hversion Hguard Hrow.
  destruct (@process_package_row _ pip _ _ _ _ Hrow)
    as (info & pat & declared & latest & comparison & Hparse & Hd & Hc & ->).
  unfold parse_package in Hparse.
  rewrite StrFacts.contains_append, (split_pinned _ _ Hname Hversion) in Hparse.
  cbn [index nth_error rbind] in Hparse. rewrite Hguard in Hparse.
  injection Hparse as <- <-. cbn in Hd. injection Hd as <-.
  now exists latest, comparison.
Qed.

Lemma pinned_row_witness :
  exists latest comparison,
    ["beta"; "2.5.1"; "3.0.0"; "major"] = ["beta"; "2.5.1"; latest; comparison] /\
    compare_versions "2.5.1" latest = Ok comparison /\
    length ["beta"; "2.5.1"; "3.0.0"; "major"] = length header.
Proof.
  exact (@pinned_row nat pip_mock "beta" "2.5.1" 0 1 _
           eq_refl eq_refl eq_refl eq_refl).
Defined.

(** X12: the run stops at the first line that raises: when the lines
    before it yield rows and it raises [e], the run raises [e] in the
    world that line left, whatever lines follow. *)
Theorem first_failure_aborts (World : Type)
        (pip : string -> World -> World * (Z * string))
        (before rest : list string) (package : string)
        (rows : list (list string)) (w w1 w2 : World) (e : exn) :
  rows_of pip w before rows w1 ->
  process_package pip package w1 = (w2, Raise e) ->
  compare_packages pip (before ++ package :: rest) w = (w2, Raise e).
Proof.
  intros Hrows Hfail. unfold compare_packages.
  rewrite (@compare_rows_app _ pip before (package :: rest) [header] _ _ _ Hrows).
  cbn [compare_rows]. unfold bind. now rewrite Hfail.
Qed.

Lemma first_failure_aborts_witness :
  compare_packages pip_mock (["alpha==1.0.0"] ++ "beta" :: ["alpha==2.0.0"]) 0
  = (1, Raise IndexError).
Proof.
  apply (@first_failure_aborts nat pip_mock ["alpha==1.0.0"] ["alpha==2.0.0"]
           "beta" [["alpha"; "1.0.0"; "1.0.0"; "match"]] 0 1 1 IndexError).
  - econstructor; [reflexivity | constructor].
  - reflexivity.
Defined.



(** X14: a manifest of well-formed lines always gets its report: no line
    raises, whatever the package index answers, and the report has one
    row per line after the header. *)
Theorem well_formed_manifest_reports (World : Type)
        (pip : string -> World -> World * (Z * string))
        (packages : list string) (w : World) :
  Forall well_formed_line packages ->
  exists w' rows,
    compare_packages pip packages w = (w', Ok (header :: rows)) /\
    length rows = length packages.
Proof.
  intros Hall.
  assert (H : exists w' rows, rows_of pip w packages rows w').
  { revert w. induction Hall as [|package rest Hline _ IH]; intros w.
    - exists w, []. constructor.
    - destruct (@process_package_total _ pip _ w Hline) as (w1 & row & Hrow).
      destruct (IH w1) as (w' & rows & Hrows).
      exists w', (row :: rows). econstructor; eassumption. }
  destruct H as (w' & rows & Hrows).
  exists w', rows. split.
  - unfold compare_packages. apply compare_rows_spec. now exists rows.
  - eapply rows_of_length. eassumption.
Qed.

Lemma well_formed_manifest_reports_witness :
  exists w' rows,
    compare_packages pip_mock ["alpha==0.9.0.1"; "gamma @ git+https://x/y"] 0
    = (w', Ok (header :: rows)) /\
    length rows = 2.
Proof.
  apply (@well_formed_manifest_reports nat pip_mock).
  repeat constructor.
  - exists "alpha", "0.9.0.1", []. now split.
  - exists "gamma", "git+https://x/y", []. now split.
Defined.

(** * Properties of the output stage *)

Module OutputFacts.
Import Output.

Lemma endswith_append (a suffix : string) : endswith (a ++ suffix) suffix = true.
Proof.
  induction a as [|x a IH]; cbn [append].
  - destruct suffix; cbn [endswith]; now rewrite String.eqb_refl.
  - cbn [endswith]. rewrite IH. apply orb_true_r.
Qed.

Lemma spaces_length (n : nat) : String.length (spaces n) = n.
Proof. induction n as [|n IH]; simpl; [reflexivity | now rewrite IH]. Qed.

(** A value no longer than the width fills the field exactly. *)
Lemma ljust_length (value : string) (width : nat) :
  String.length value <= width -> String.length (ljust value width) = width.
Proof.
  intros H. unfold ljust. rewrite StrFacts.append_length, spaces_length. lia.
Qed.

Lemma nth_error_combine {A B : Type} (la : list A) (lb : list B) :
  forall j a b,
    nth_error (combine la lb) j = Some (a, b) ->
    nth_error la j = Some a /\ nth_error lb j = Some b.
Proof.
  revert lb. induction la as [|x la IH]; intros [|y lb] j a b H;
    try (destruct j; discriminate H).
  destruct j as [|j]; simpl in H |- *.
  - injection H as -> ->. now split.
  - now apply IH.
Qed.

(** Every column holds one field of every row. *)
Lemma zip_star_column (rows : list (list string)) :
  forall j column,
    nth_error (zip_star rows) j = Some column ->
    forall row, In row rows ->
    exists value, nth_error row j = Some value /\ In value column.
Proof.
  induction rows as [|first rest IH]; intros j column Hj row Hrow;
    [destruct Hrow|].
  cbn [zip_star] in Hj. destruct rest as [|second rest].
  - destruct Hrow as [<- | []].
    rewrite nth_error_map in Hj.
    destruct (nth_error first j) as [value|]; [|discriminate Hj].
    injection Hj as <-. exists value. split; [reflexivity | now left].
  - rewrite nth_error_map in Hj.
    destruct (nth_error (combine first (zip_star (second :: rest))) j)
      as [[value column']|] eqn:E; [|discriminate Hj].
    injection Hj as <-. cbn [fst snd].
    apply nth_error_combine in E. destruct E as [Hvalue Hcolumn].
    destruct Hrow as [<- | Hrow].
    + exists value. split; [exact Hvalue | now left].
    + destruct (IH j column' Hcolumn row Hrow) as (v & Hv & Hin).
      exists v. split; [exact Hv | now right].
Qed.

Lemma zip_star_nonempty (rows : list (list string)) :
  Forall (fun column => column <> []) (zip_star rows).
Proof.
  destruct rows as [|first rest]; [constructor|]. cbn [zip_star].
  destruct rest; apply Forall_forall; intros column Hin;
    apply in_map_iff in Hin; destruct Hin as (x & <- & _); discriminate.
Qed.

Lemma fold_max_bound (values : list nat) :
  forall start x, In x (start :: values) -> x <= fold_left Nat.max values start.
Proof.
  induction values as [|v values IH]; intros start x Hin; cbn [fold_left].
  - destruct Hin as [Hx | []]. lia.
  - destruct Hin as [Hx | [Hx | Hin]].
    + transitivity (Nat.max start v); [lia | apply IH; now left].
    + transitivity (Nat.max start v); [lia | apply IH; now left].
    + apply IH. now right.
Qed.

Lemma py_max_bound (values : list nat) (m : nat) :
  py_max values = Some m -> forall x, In x values -> x <= m.
Proof.
  destruct values as [|v values]; [discriminate|].
  intros H x Hin. injection H as <-. now apply fold_max_bound.
Qed.

Lemma traverse_nth {A B : Type} (f : A -> option B) (xs : list A) :
  forall ys,
    traverse f xs = Some ys ->
    length ys = length xs /\
    forall j y, nth_error ys j = Some y ->
                exists x, nth_error xs j = Some x /\ f x = Some y.
Proof.
  induction xs as [|x xs IH]; intros ys H; cbn [traverse] in H.
  - injection H as <-. split; [reflexivity|]. intros [|j] y Hy; discriminate Hy.
  - destruct (f x) as [y0|] eqn:Ex; [|discriminate H].
    destruct (traverse f xs) as [ys'|]; [|discriminate H].
    injection H as <-. destruct (IH ys' eq_refl) as [Hlen Hnth].
    split; [simpl; now rewrite Hlen|].
    intros [|j] y Hy; simpl in Hy |- *.
    + injection Hy as <-. now exists x.
    + now apply Hnth.
Qed.

Lemma traverse_total {A B : Type} (f : A -> option B) (xs : list A) :
  Forall (fun x => exists y, f x = Some y) xs ->
  exists ys, traverse f xs = Some ys.
Proof.
  induction 1 as [|x xs [y Hy] _ [ys IH]]; cbn [traverse]; [eauto|].
  rewrite Hy, IH. eauto.
Qed.

(** Each width is at least the length of the field of every row in that
    column. *)
Lemma column_widths_fit (rows : list (list string)) (widths : list nat) :
  column_widths rows = Some widths ->
  forall row, In row rows ->
  forall j width, nth_error widths j = Some width ->
  exists value, nth_error row j = Some value /\ String.length value <= width.
Proof.
  unfold column_widths. intros H row Hrow j width Hj.
  destruct (traverse_nth _ _ H) as [_ Hnth].
  destruct (Hnth j width Hj) as (column & Hcolumn & Hmax).
  destruct (zip_star_column rows j Hcolumn row Hrow) as (value & Hvalue & Hin).
  exists value. split; [exact Hvalue|].
  apply (py_max_bound _ Hmax). now apply in_map.
Qed.

(** A row that has a field for every width, none longer than its width,
    is rendered to the common line length. *)
Lemma render_row_length (widths : list nat) :
  forall row,
    (forall j width, nth_error widths j = Some width ->
       exists value, nth_error row j = Some value /\
                     String.length value <= width) ->
    String.length (render_row widths row) = line_length widths.
Proof.
  unfold render_row, line_length.
  induction widths as [|width widths IH]; intros row Hfit.
  - now rewrite combine_nil.
  - destruct (Hfit 0 width eq_refl) as (value & Hvalue & Hlen).
    destruct row as [|value' row]; [discriminate Hvalue|].
    injection Hvalue as ->.
    assert (Hfit' : forall j wd, nth_error widths j = Some wd ->
              exists v, nth_error row j = Some v /\ String.length v <= wd).
    { intros j wd Hj. apply (Hfit (S j) wd Hj). }
    specialize (IH row Hfit').
    cbn [combine map fst snd list_sum length].
    destruct widths as [|width2 widths].
    + rewrite combine_nil. cbn [map Str.join].
      rewrite (ljust_length _ Hlen). simpl. lia.
    + destruct (Hfit' 0 width2 eq_refl) as (value2 & Hvalue2 & _).
      destruct row as [|v2 row]; [discriminate Hvalue2|].
      rewrite SplitFacts.join_cons by discriminate.
      rewrite !StrFacts.append_length, (ljust_length _ Hlen), IH.
      simpl. lia.
Qed.

(** There are at least as many columns as every row has fields, and no
    more than the first row has. *)
Lemma zip_star_length_ge (rows : list (list string)) (n : nat) :
  rows <> [] ->
  Forall (fun row => n <= length row) rows ->
  n <= length (zip_star rows).
Proof.
  induction rows as [|first rest IH]; intros Hne Hall; [congruence|].
  inversion Hall as [|? ? Hfirst Hrest]; subst. cbn [zip_star].
  destruct rest as [|second rest].
  - now rewrite length_map.
  - rewrite length_map, length_combine.
    apply Nat.min_glb; [exact Hfirst|]. apply IH; [discriminate | exact Hrest].
Qed.

Lemma zip_star_length_le (first : list string) (rest : list (list string)) :
  length (zip_star (first :: rest)) <= length first.
Proof.
  cbn [zip_star]. destruct rest as [|second rest].
  - now rewrite length_map.
  - rewrite length_map, length_combine. apply Nat.le_min_l.
Qed.

End OutputFacts.

(** X15: whenever the report goes to a file, the path of the file ends
    with '.csv' and starts with the path that was given; this holds for a
    directory, for a path without the suffix and for a path with it. *)
Theorem output_file_is_csv (isdir : string -> bool) (output_file : option string)
        (path : string) :
  Output.output_destination isdir output_file = Output.CsvFile path ->
  Output.endswith path ".csv" = true /\
  exists given,
    output_file = Some given /\ given <> EmptyString /\
    Str.startswith path given = true.
Proof.
  unfold Output.output_destination.
  destruct output_file as [[|c given]|]; try discriminate.
  remember (String c given) as g eqn:Eg. intros H.
  assert (Hg : g <> EmptyString) by (subst g; discriminate).
  clear Eg c given.
  assert (Hprefix : forall tail, Str.startswith (g ++ tail) g = true)
    by (intros tail; apply StrFacts.startswith_append).
  destruct (isdir g).
  - injection H as <-. split.
    + change "/version_check.csv" with ("/version_check" ++ ".csv")%string.
      rewrite <- StrFacts.append_assoc. apply OutputFacts.endswith_append.
    + exists g. split; [reflexivity|]. split; [exact Hg | apply Hprefix].
  - destruct (Output.endswith g ".csv") eqn:E; cbn [negb] in H;
      injection H as <-.
    + split; [exact E|]. exists g. split; [reflexivity|]. split; [exact Hg|].
      rewrite <- (SplitFacts.append_nil_r g) at 1. apply Hprefix.
    + split; [apply OutputFacts.endswith_append|].
      exists g. split; [reflexivity|]. split; [exact Hg | apply Hprefix].
Qed.

Lemma output_file_is_csv_witness :
  Output.endswith "/tmp/out/version_check.csv" ".csv" = true /\
  exists given,
    Some "/tmp/out" = Some given /\ given <> EmptyString /\
    Str.startswith "/tmp/out/version_check.csv" given = true.
Proof.
  exact (@output_file_is_csv (fun _ => true) (Some "/tmp/out")
           "/tmp/out/version_check.csv" eq_refl).
Defined.

(** The widths exist for every list of rows. *)
Lemma compare_string_columns (version_compare : list (list string)) :
  exists widths, Output.column_widths version_compare = Some widths.
Proof.
  unfold Output.column_widths. apply OutputFacts.traverse_total.
  pose proof (OutputFacts.zip_star_nonempty version_compare) as Hne.
  rewrite Forall_forall in Hne |- *. intros column Hin.
  specialize (Hne column Hin).
  destruct column as [|v vs]; [congruence|]. cbn. eauto.
Qed.

(** X16: building the console table never fails: [max] is never applied
    to an empty column, whatever the rows are. *)
Theorem compare_string_total (version_compare : list (list string)) :
  exists text, Output.compare_string version_compare = Some text.
Proof.
  unfold Output.compare_string.
  destruct (compare_string_columns version_compare) as [widths ->]. eauto.
Qed.

(** X17: every line of the console table has the same length: each
    field is padded to the width of its column, which is the length of
    the longest field in that column. *)
Theorem table_lines_aligned (version_compare : list (list string))
        (widths : list nat) (row : list string) :
  Output.column_widths version_compare = Some widths ->
  In row version_compare ->
  String.length (Output.render_row widths row) = Output.line_length widths.
Proof.
  intros Hwidths Hrow. apply OutputFacts.render_row_length.
  now apply (OutputFacts.column_widths_fit version_compare).
Qed.

Lemma table_lines_aligned_witness :
  String.length (Output.render_row [7; 7; 6; 7] ["alpha"; "1.0.0"; "1.0.0"; "match"])
  = Output.line_length [7; 7; 6; 7].
Proof.
  apply (@table_lines_aligned
           [header; ["alpha"; "1.0.0"; "1.0.0"; "match"];
            ["foo"; "1.0"; "2.0"; "n/a"; "n/a"]]).
  - reflexivity.
  - right. left. reflexivity.
Defined.

(** Every row of a pass has at least the four fields of the header. *)
Lemma rows_of_wide (World : Type) (pip : string -> World -> World * (Z * string))
      (packages : list string) :
  forall w rows w',
    rows_of pip w packages rows w' ->
    Forall (fun row => length header <= length row) rows.
Proof.
  induction packages as [|package rest IH]; intros w rows w' H;
    inversion H as [|? w1 ? ? ? row rows' E H']; subst; constructor.
  - destruct (@process_package_row _ pip _ _ _ _ E)
      as (info & pat & declared & latest & comparison & Hparse & _ & _ & ->).
    destruct (@parse_package_fields _ _ _ Hparse) as (n & d & more & -> & _).
    rewrite length_app. simpl. lia.
  - apply (IH _ _ _ H').
Qed.

(** X18: the console table of the report of a run has exactly the four
    columns of the header: a row with more fields (a line with several
    '==') is printed without the fields after the fourth. *)
Theorem report_table_columns (World : Type)
        (pip : string -> World -> World * (Z * string))
        (packages : list string) (w w' : World) (report : list (list string)) :
  compare_packages pip packages w = (w', Ok report) ->
  exists widths,
    Output.column_widths report = Some widths /\
    length widths = length header /\
    forall row, In row report ->
      Output.render_row widths row
      = Output.render_row widths (firstn (length header) row).
Proof.
  intros H. unfold compare_packages in H.
  apply compare_rows_spec in H. destruct H as (rows & -> & Hrows).
  cbn [app].
  destruct (compare_string_columns (header :: rows)) as [widths Hwidths].
  exists widths. split; [exact Hwidths|].
  assert (Hlen : length widths = length header).
  { unfold Output.column_widths in Hwidths.
    destruct (OutputFacts.traverse_nth _ _ Hwidths) as [-> _].
    apply Nat.le_antisymm.
    - apply OutputFacts.zip_star_length_le.
    - apply OutputFacts.zip_star_length_ge; [discriminate|].
      constructor; [reflexivity|]. apply (rows_of_wide Hrows). }
  split; [exact Hlen|].
  intros row _. unfold Output.render_row.
  now rewrite (combine_firstn_r row widths), Hlen.
Qed.

Lemma report_table_columns_witness :
  exists widths,
    Output.column_widths
      [header; ["foo"; "1.0"; "2.0"; "n/a"; "n/a"]] = Some widths /\
    length widths = length header /\
    forall row, In row [header; ["foo"; "1.0"; "2.0"; "n/a"; "n/a"]] ->
      Output.render_row widths row
      = Output.render_row widths (firstn (length header) row).
Proof.
  exact (@report_table_columns unit pip_offline ["foo==1.0==2.0"] tt tt _ eq_refl).
Defined.

(** A line that yields a row has queried the index once, for its name. *)
Lemma process_package_world (World : Type)
      (pip : string -> World -> World * (Z * string))
      (package : string) (w w' : World) (row : list string) :
  process_package pip package w = (w', Ok row) ->
  exists name, nth_error row 0 = Some name /\ w' = fst (pip name w).
Proof.
  unfold process_package, bind, lift, ret.
  destruct (parse_package package) as [[info pat]|e] eqn:Hparse; [|discriminate].
  destruct (@parse_package_fields _ _ _ Hparse) as (name & d & more & -> & _).
  cbn [index nth_error]. unfold latest_version.
  destruct (pip name w) as [w1 [rc out]] eqn:Hpip.
  assert (Hw : w1 = fst (pip name w)) by now rewrite Hpip.
  destruct (Z.eqb rc 0).
  - destruct (version_search <~ Re.search pat out;;
              match version_search with
              | Some m => Re.group1 m
              | None => Ok "n/a"
              end) as [v|e]; [|discriminate].
    destruct (compare_versions d v); [|discriminate].
    intros H. injection H as <- <-. exists name. now split.
  - destruct (compare_versions d "n/a"); [|discriminate].
    intros H. injection H as <- <-. exists name. now split.
Qed.

(** X19: a run that returns a report has queried the package index
    exactly once per manifest line: with an index that counts its
    queries, the count grows by the number of lines. *)
Theorem one_query_per_line (pip : string -> nat -> nat * (Z * string))
        (packages : list string) (w w' : nat) (report : list (list string)) :
  (forall name n, fst (pip name n) = S n) ->
  compare_packages pip packages w = (w', Ok report) ->
  w' = w + length packages.
Proof.
  intros Hcount H. unfold compare_packages in H.
  apply compare_rows_spec in H. destruct H as (rows & _ & Hrows).
  clear report. induction Hrows as [w | w w1 w2 package rest row rows E _ IH].
  - simpl. lia.
  - destruct (process_package_world pip _ _ E) as (name & _ & ->).
    rewrite Hcount in IH. simpl. lia.
Qed.

Lemma one_query_per_line_witness :
  2 = 0 + length ["alpha==1.0.0"; "beta==2.5.1"].
Proof.
  apply (@one_query_per_line pip_mock ["alpha==1.0.0"; "beta==2.5.1"] 0 2
           [header; ["alpha"; "1.0.0"; "1.0.0"; "match"];
                    ["beta"; "2.5.1"; "3.0.0"; "major"]]).
  - intros name n. unfold pip_mock.
    destruct (String.eqb name "alpha"); [reflexivity|].
    destruct (String.eqb name "beta"); reflexivity.
  - reflexivity.
Defined.
